(** * prose pipeline blocks ([prose/_blocks/imutils.py])

    A shallow embedding of the image blocks [Stack], [StackStd], [SavePhots]
    and [CleanCosmics], together with the part of numpy and of the FITS
    layer they call, and the properties of the blocks checked against it. *)

From Stdlib Require Import QArith Qround Ascii String Sorted.
From stdpp Require Import gmap strings list pretty.

Local Close Scope Q_scope.
Local Open Scope nat_scope.

(** ** Python exceptions and fallible computations *)

Inductive exn : Type :=
  | IndexError
  | KeyError (key : string)
  | TypeError
  | AttributeError
  | ValueError
  | AxisError (axis ndim : nat)
  | FileNotFoundError (file : string)
  | OSError (file : string).

Inductive result (A : Type) : Type :=
  | Ok (a : A)
  | Raise (e : exn).
Arguments Ok {A} a.
Arguments Raise {A} e.

Global Instance result_ret : MRet result := @Ok.
Global Instance result_bind : MBind result := λ A B f m,
  match m with Ok a => f a | Raise e => Raise e end.
Global Instance result_fmap : FMap result := λ A B f m,
  match m with Ok a => Ok (f a) | Raise e => Raise e end.

(** [o or_raise e]: the value of [o], the exception [e] when there is none. *)
Definition or_raise {A} (o : option A) (e : exn) : result A :=
  match o with Some a => Ok a | None => Raise e end.

Definition is_Ok {A} (r : result A) : Prop := ∃ a, r = Ok a.

(** ** numpy arrays

    An array is its shape and its elements in C (row-major) order. *)
Module np.

Record ndarray (A : Type) : Type := mk_ndarray {
  shape : list nat;
  flat : list A
}.
Arguments mk_ndarray {A} shape flat.
Arguments shape {A} _.
Arguments flat {A} _.

Definition ndim {A} (a : ndarray A) : nat := length (shape a).

(** Number of elements of an array of the given shape. *)
Definition size (sh : list nat) : nat := foldr Nat.mul 1 sh.

(** Arrays built by numpy hold as many elements as their shape says. *)
Definition wf {A} (a : ndarray A) : Prop := length (flat a) = size (shape a).

(** Offset of a multi-index in C order; [None] when the index has the wrong
    rank or a component is out of bounds. *)
Fixpoint ravel (sh idx : list nat) : option nat :=
  match sh, idx with
  | [], [] => Some 0
  | d :: sh', i :: idx' =>
      if decide (i < d) then (λ r, i * size sh' + r) <$> ravel sh' idx' else None
  | _, _ => None
  end.

(** [a[idx]] for a full multi-index of non-negative components. *)
Definition getitem {A} (a : ndarray A) (idx : list nat) : option A :=
  r ← ravel (shape a) idx; flat a !! r.

(** All multi-indices of a shape, in C order ([np.ndindex]). *)
Fixpoint ndindex (sh : list nat) : list (list nat) :=
  match sh with
  | [] => [[]]
  | d :: sh' => i ← seq 0 d; cons i <$> ndindex sh'
  end.

(** Position of [x] in [l] ([list.index]). *)
Fixpoint index_of (x : nat) (l : list nat) : nat :=
  match l with
  | [] => 0
  | y :: l' => if decide (x = y) then 0 else S (index_of x l')
  end.

(** [a.transpose(axes)]: axis [i] of the result is axis [axes[i]] of [a], so
    the result at [idx] is [a] at the index [j] with [j[axes[i]] = idx[i]]. *)
Definition source_index (axes idx : list nat) : list nat :=
  (λ ax, idx !!! index_of ax axes) <$> seq 0 (length axes).

Definition transpose {A} (a : ndarray A) (axes : list nat) : ndarray A :=
  let sh := (λ ax, shape a !!! ax) <$> axes in
  mk_ndarray sh (omap (λ idx, getitem a (source_index axes idx)) (ndindex sh)).

(** [list.insert(i, x)]: [x] goes before position [i], at the end when [i]
    is past it. *)
Definition list_insert_at {X} (i : nat) (x : X) (l : list X) : list X :=
  take i l ++ x :: drop i l.

(** [np.moveaxis(a, source, destination)] for one non-negative axis each:
    [order] lists the other axes in place, [source] is inserted at
    [destination], and the array is transposed by it. An axis outside
    [0 .. ndim-1] raises [AxisError]; [source] is checked first. *)
Definition moveaxis {A} (a : ndarray A) (source destination : nat)
  : result (ndarray A) :=
  if decide (ndim a ≤ source) then Raise (AxisError source (ndim a))
  else if decide (ndim a ≤ destination) then Raise (AxisError destination (ndim a))
  else
    let order := filter (λ n, n ≠ source) (seq 0 (ndim a)) in
    Ok (transpose a (list_insert_at destination source order)).

(** [np.array(l)] for a list of arrays: the arrays stacked along a new
    leading axis. The empty list gives the empty one-axis array; arrays of
    unequal shapes are refused ([ValueError], as numpy does since 1.24). *)
Definition array {A} (l : list (ndarray A)) : result (ndarray A) :=
  match l with
  | [] => Ok (mk_ndarray [0] [])
  | a :: _ =>
      if decide (Forall (λ b, shape b = shape a) l)
      then Ok (mk_ndarray (length l :: shape a) (l ≫= flat))
      else Raise ValueError
  end.

End np.

(** Element-wise operation on two arrays of one shape. numpy would
    broadcast operands of unequal but compatible shapes; every array
    combined by the blocks below is an image plane of the one dataset, so
    unequal shapes are reported ([ValueError]) rather than broadcast. *)
Definition elementwise {A B C} (f : A → B → C) (a : np.ndarray A) (b : np.ndarray B)
  : result (np.ndarray C) :=
  if decide (np.shape a = np.shape b)
  then Ok (np.mk_ndarray (np.shape a) (zip_with f (np.flat a) (np.flat b)))
  else Raise ValueError.

(** Operation between an array and a scalar. *)
Definition scalar_op {A B} (f : A → B) (a : np.ndarray A) : np.ndarray B :=
  np.mk_ndarray (np.shape a) (f <$> np.flat a).

(** [b[mask]]: the elements of [b] where the mask holds, in C order. *)
Fixpoint select {A} (b : list A) (mask : list bool) : list A :=
  match b, mask with
  | x :: b', m :: mask' => if m then x :: select b' mask' else select b' mask'
  | _, _ => []
  end.

(** [a[mask] = values]: the positions of [a] where the mask holds receive
    the values one after the other, in C order. *)
Fixpoint assign {A} (a : list A) (mask : list bool) (values : list A) : list A :=
  match a, mask with
  | x :: a', m :: mask' =>
      if m then
        match values with
        | v :: values' => v :: assign a' mask' values'
        | [] => x :: assign a' mask' []
        end
      else x :: assign a' mask' values
  | _, _ => a
  end.

(** Boolean-mask indexing; the mask must have the shape of the array
    ([IndexError] otherwise). *)
Definition getmask {A} (b : np.ndarray A) (mask : np.ndarray bool) : result (list A) :=
  if decide (np.shape mask = np.shape b)
  then Ok (select (np.flat b) (np.flat mask))
  else Raise IndexError.

(** Boolean-mask assignment; as many values as the mask has true entries
    ([ValueError] otherwise). *)
Definition setmask {A} (a : np.ndarray A) (mask : np.ndarray bool) (values : list A)
  : result (np.ndarray A) :=
  if decide (np.shape mask = np.shape a) then
    if decide (length values = length (filter (λ m, m = true) (np.flat mask)))
    then Ok (np.mk_ndarray (np.shape a) (assign (np.flat a) (np.flat mask) values))
    else Raise ValueError
  else Raise IndexError.

(** Python floats are modelled by exact rationals. *)
Global Instance Q_inhabited : Inhabited Q := populate 0%Q.

Definition Qgtb (x y : Q) : bool := negb (Qle_bool x y).

(** [int(x)]: truncation toward zero. *)
Definition int (x : Q) : Z := Z.quot (Qnum x) (Zpos (Qden x)).

(** [l[i]] on a Python list: a negative index counts from the end. *)
Definition py_index {A} (l : list A) (i : Z) : result A :=
  let n := Z.of_nat (length l) in
  if decide (0 ≤ i < n)%Z then or_raise (l !! Z.to_nat i) IndexError
  else if decide (- n ≤ i < 0)%Z then or_raise (l !! Z.to_nat (n + i)) IndexError
  else Raise IndexError.

(** ** Strings *)

(** [str.lower] on ASCII text. *)
Definition lower_ascii (c : ascii) : ascii :=
  let n := Ascii.nat_of_ascii c in
  if decide (65 ≤ n ≤ 90) then Ascii.ascii_of_nat (n + 32) else c.

Fixpoint lower (s : string) : string :=
  match s with
  | EmptyString => EmptyString
  | String c s' => String (lower_ascii c) (lower s')
  end.

(** [str.upper] on ASCII text. *)
Definition upper_ascii (c : ascii) : ascii :=
  let n := Ascii.nat_of_ascii c in
  if decide (97 ≤ n ≤ 122) then Ascii.ascii_of_nat (n - 32) else c.

Fixpoint upper (s : string) : string :=
  match s with
  | EmptyString => EmptyString
  | String c s' => String (upper_ascii c) (upper s')
  end.

(** [s.replace(old, new)] for one-character [old] and [new]. *)
Fixpoint replace (old new : ascii) (s : string) : string :=
  match s with
  | EmptyString => EmptyString
  | String c s' => String (if decide (c = old) then new else c) (replace old new s')
  end.

Fixpoint ends_with_slash (s : string) : bool :=
  match s with
  | EmptyString => false
  | String c EmptyString => bool_decide (c = "/"%char)
  | String _ s' => ends_with_slash s'
  end.

(** [os.path.join(a, b)] on POSIX paths. *)
Definition path_join (a b : string) : string :=
  match b with
  | String "/"%char _ => b
  | _ => if decide (a = EmptyString) then b
         else if ends_with_slash a then a +:+ b
         else a +:+ "/" +:+ b
  end.

(** ** FITS files, the store and the file system *)

(** A header card value. *)
Inductive card : Type :=
  | VInt (z : Z)
  | VFloat (q : Q)
  | VStr (s : string).

(** A header: its cards, one value per keyword. astropy holds keywords
    in upper case and finds a card whatever the letter case of the keyword
    asked for: the map is keyed by the normalised keyword and every access
    by keyword normalises it first. The cards that describe the layout of
    the data ([SIMPLE], [BITPIX], [NAXIS], ...) are derived by astropy from
    the array when the HDU is written; the array stands for them here. *)
Abbreviation Header := (gmap string card).

(** [Card.normalize_keyword], for keywords without blanks around them. *)
Definition normalize_keyword (keyword : string) : string := upper keyword.

(** [header[keyword]], [header.get(keyword)] and [keyword in header] *)
Definition header_get (h : Header) (keyword : string) : option card :=
  h !! normalize_keyword keyword.

(** [header[keyword] = value] *)
Definition header_set (keyword : string) (value : card) (h : Header) : Header :=
  <[normalize_keyword keyword := value]> h.

(** The integer a card holds, 0 without such a card. *)
Definition card_count (h : Header) (keyword : string) : nat :=
  match h !! keyword with
  | Some (VInt z) => Z.to_nat z
  | _ => 0
  end.

(** The keywords [Header._strip] removes: the axis lengths up to [NAXIS],
    the column cards up to [TFIELDS], and the cards of the layout and of
    the scaling. *)
Definition stripped_keywords (h : Header) : list string :=
  ((λ idx, "NAXIS" +:+ pretty (S idx)) <$> seq 0 (card_count h "NAXIS")) ++
  (name ← [ "TFORM"; "TSCAL"; "TZERO"; "TNULL"; "TTYPE"; "TUNIT"; "TDISP";
            "TDIM"; "THEAP"; "TBCOL" ];
   (λ idx, name +:+ pretty (S idx)) <$> seq 0 (card_count h "TFIELDS")) ++
  [ "SIMPLE"; "XTENSION"; "BITPIX"; "NAXIS"; "EXTEND"; "PCOUNT"; "GCOUNT";
    "GROUPS"; "BSCALE"; "BZERO"; "TFIELDS" ].

(** [Header._strip], on a copy: what is left of a header handed to the
    constructor of an HDU. *)
Definition strip (h : Header) : Header :=
  filter (λ kv, kv.1 ∉ stripped_keywords h) h.

(** The extensions the blocks write, under the name the file shows. *)
Inductive hdu : Type :=
  | Image_hdu (name : string) (data : np.ndarray Q)
  | BinTable_hdu (name : string) (table : gmap string (list card)).

(** [fits.ImageHDU(data, name=name)] and [fits.BinTableHDU(table,
    name=name)]: astropy puts the name in upper case ([EXTNAME]). *)
Definition ImageHDU (name : string) (data : np.ndarray Q) : hdu :=
  Image_hdu (upper name) data.

Definition BinTableHDU (name : string) (table : gmap string (list card)) : hdu :=
  BinTable_hdu (upper name) table.

(** [fits.HDUList]: a primary HDU followed by extensions. *)
Record HDUList : Type := mk_HDUList {
  primary_header : Header;
  primary_data : option (np.ndarray Q);
  extensions : list hdu
}.

(** [fits.PrimaryHDU(data, header=header)] written on its own: the HDU
    holds the array and a stripped copy of the header. The arrays handed
    over are image planes; astropy refuses an array without axes. *)
Definition PrimaryHDU (data : np.ndarray Q) (header : Header) : HDUList :=
  mk_HDUList (strip header) (Some data) [].

(** [hdu.header[keyword] = value] on the primary HDU. *)
Definition set_primary (keyword : string) (value : card) (file : HDUList) : HDUList :=
  mk_HDUList (header_set keyword value (primary_header file)) (primary_data file)
    (extensions file).

(** Arrays live in a store and are passed by reference; files are looked
    up by path. [clock] is what [Time.now().to_value("fits")] reads. *)
Record world : Type := mk_world {
  fs : gmap string HDUList;
  heap : gmap nat (np.ndarray Q);
  clock : string
}.

(** Computations on the world that may raise. The world comes back in both
    cases: what was done before an exception stays done. *)
Definition M (A : Type) : Type := world → result A * world.

Global Instance M_ret : MRet M := λ A a w, (Ok a, w).
Global Instance M_bind : MBind M := λ A B f m w,
  match m w with
  | (Ok a, w') => f a w'
  | (Raise e, w') => (Raise e, w')
  end.

Global Instance M_fmap : FMap M := λ A B f m w,
  match m w with
  | (Ok a, w') => (Ok (f a), w')
  | (Raise e, w') => (Raise e, w')
  end.

Definition lift {A} (r : result A) : M A := λ w, (r, w).

(** A reference outside the store has no Python counterpart: the model
    reports it as a [TypeError]. *)
Definition load (l : nat) : M (np.ndarray Q) := λ w,
  (or_raise (heap w !! l) TypeError, w).

Definition store (l : nat) (a : np.ndarray Q) : M () := λ w,
  (Ok (), mk_world (fs w) (<[l := a]> (heap w)) (clock w)).

Definition now : M string := λ w, (Ok (clock w), w).

(** [fits.getheader(path)]: the primary header of the file. *)
Definition getheader (path : string) : M Header := λ w,
  (or_raise (primary_header <$> fs w !! path) (FileNotFoundError path), w).

(** [fits.getdata(path)]: the primary array, the first extension's when
    the primary HDU is empty. *)
Definition getdata (path : string) : M (np.ndarray Q) := λ w,
  (file ← or_raise (fs w !! path) (FileNotFoundError path);
   match primary_data file, extensions file with
   | Some d, _ => Ok d
   | None, Image_hdu _ d :: _ => Ok d
   | None, _ => Raise IndexError
   end, w).

(** [hdu.writeto(destination, overwrite)]: an existing destination is
    replaced only when [overwrite] is set, and is an [OSError] otherwise. *)
Definition writeto (file : HDUList) (destination : string) (overwrite : bool) : M () := λ w,
  match fs w !! destination with
  | Some _ =>
      if overwrite then (Ok (), mk_world (<[destination := file]> (fs w)) (heap w) (clock w))
      else (Raise (OSError destination), w)
  | None => (Ok (), mk_world (<[destination := file]> (fs w)) (heap w) (clock w))
  end.

(** ** The data model *)

Record Telescope : Type := mk_Telescope {
  keyword_image_type : string;
  keyword_exposure_time : string;
  keyword_julian_date : string;
  keyword_seeing : string;
  keyword_ra : string;
  keyword_dec : string
}.

(** A row of [files_df], with the two columns the blocks read. *)
Module df.

Record row : Type := mk_row { flip : string; jd : Q }.

End df.

(** The fits manager. Its class is outside these sources: [has_stack] and
    [get_stack] stand for the answers of [has_stack()] and [get("stack")]. *)
Record FitsManager : Type := mk_FitsManager {
  files : list string;
  files_df : list df.row;
  telescope : Telescope;
  folder : string;
  has_stack : bool;
  get_stack : list string
}.

(** An image. [data] is a reference into the store; [wcs] is the header
    [wcs.to_header()] gives when the image has a WCS; [attrs] holds the
    attributes attached by the photometry blocks ([__dict__]). *)
Record Image : Type := mk_Image {
  path : string;
  data : nat;
  header : Header;
  wcs : option Header;
  fluxes : np.ndarray Q;
  fluxes_errors : np.ndarray Q;
  stars_coords : np.ndarray Q;
  sky : Q;
  attrs : gmap string (np.ndarray Q)
}.

(** ** [Stack] *)
Module Stack.

Record t : Type := mk {
  reference : Q;
  stack : option nat;
  stack_header : option Header;
  destination : string;
  fits_manager : option FitsManager;
  overwrite : bool;
  reference_image_path : option string
}.

(** [__init__(destination, reference=1/2, overwrite=False)] *)
Definition init (destination : string) (reference : Q) (overwrite : bool) : t :=
  mk reference None None destination None overwrite None.

(** The product [reference * len(files)] is taken exactly. The float
    product of the code is this one rounded, and its integer part is the
    same whenever the exact product is an integer or is not within one
    rounding of an integer. *)
Definition initialize (self : t) (fm : FitsManager) : M t :=
  let reference_frame := int (reference self * inject_Z (Z.of_nat (length (files fm)))) in
  p ← lift (py_index (files fm) reference_frame);
  h ← getheader p;
  mret (mk (reference self) (stack self) (Some h) (destination self) (Some fm)
           (overwrite self) (Some p)).

(** [self.stack = image.data] binds the accumulator to the first image's
    own array; [self.stack += image.data] then adds in place into it. *)
Definition run (self : t) (image : Image) : M t :=
  self ← match stack self with
         | None =>
             mret (mk (reference self) (Some (data image)) (stack_header self)
                      (destination self) (fits_manager self) (overwrite self)
                      (reference_image_path self))
         | Some l =>
             acc ← load l;
             d ← load (data image);
             sum ← lift (elementwise Qplus acc d);
             _ ← store l sum;
             mret self
         end;
  if decide (Some (path image) = reference_image_path self) then
    h ← lift (or_raise (stack_header self) AttributeError);
    w ← lift (or_raise (wcs image) AttributeError);
    mret (mk (reference self) (stack self) (Some (w ∪ h)) (destination self)
             (fits_manager self) (overwrite self) (reference_image_path self))
  else mret self.

(** [enumerate(l, start)] *)
Definition enumerate {X} (l : list X) (start : nat) : list (nat * X) :=
  zip (seq start (length l)) l.

(** The indices at which the flip state differs from the one before. *)
Definition changing_flip_idxs (flip : list string) : list nat :=
  fst <$> filter (λ p, (p.2).1 ≠ (p.2).2) (enumerate (zip flip (drop 1 flip)) 1).

(** [column.iloc[idxs].values]: every position must exist. *)
Definition iloc {X} (column : list X) (idxs : list nat) : result (list X) :=
  mapM (λ i, or_raise (column !! i) IndexError) idxs.

Definition terminate (self : t) : M () :=
  fm ← lift (or_raise (fits_manager self) AttributeError);
  l ← lift (or_raise (stack self) TypeError);
  acc ← load l;
  let n := length (files fm) in
  _ ← store l (scalar_op (λ x, x / inject_Z (Z.of_nat n))%Q acc);
  h ← lift (or_raise (stack_header self) TypeError);
  let h := header_set (keyword_image_type (telescope fm)) (VStr "Stack image") h in
  let h := header_set "BZERO" (VInt 0) h in
  reddate ← now;
  let h := header_set "REDDATE" (VStr reddate) h in
  let h := header_set "NIMAGES" (VInt (Z.of_nat n)) h in
  let idxs := changing_flip_idxs (df.flip <$> files_df fm) in
  h ← (if decide (0 < length idxs) then
         jds ← lift (iloc (df.jd <$> files_df fm) idxs);
         fliptime ← lift (or_raise (jds !! 0) IndexError);
         mret (header_set "FLIPTIME" (VFloat fliptime) h)
       else mret h);
  st ← load l;
  writeto (PrimaryHDU st h) (destination self) (overwrite self).

(** The pipeline driver on one block: [run] on each image in turn. *)
Fixpoint run_all (self : t) (images : list Image) : M t :=
  match images with
  | [] => mret self
  | image :: images' => self ← run self image; run_all self images'
  end.

End Stack.

(** ** [StackStd] *)
Module StackStd.

Record t : Type := mk {
  images : list nat;
  stack_header : option Header;
  destination : string;
  fits_manager : option FitsManager;
  overwrite : bool;
  stack_std : option (np.ndarray Q)
}.

(** [__init__(destination, overwrite=False)] *)
Definition init (destination : string) (overwrite : bool) : t :=
  mk [] None destination None overwrite None.

Definition initialize (self : t) (fm : FitsManager) : M t :=
  h ← (if has_stack fm then
         p ← lift (py_index (get_stack fm) 0);
         Some <$> getheader p
       else mret (stack_header self));
  mret (mk (images self) h (destination self) (Some fm) (overwrite self) (stack_std self)).

(** The buffer keeps the images' arrays themselves, not copies. *)
Definition run (self : t) (image : Image) : M t :=
  mret (mk (images self ++ [data image]) (stack_header self) (destination self)
           (fits_manager self) (overwrite self) (stack_std self)).

Definition Qsum (l : list Q) : Q := foldr Qplus 0%Q l.

Definition mean (l : list Q) : Q := (Qsum l / inject_Z (Z.of_nat (length l)))%Q.

(** [np.std(a, axis=0)]: for each position of a plane, the square root of
    the mean squared deviation of the values stacked there. The square
    root is left to the caller. *)
Definition std_axis0 (sqrt : Q → Q) (a : np.ndarray Q) : np.ndarray Q :=
  let n := hd 0 (np.shape a) in
  let plane := np.size (tail (np.shape a)) in
  np.mk_ndarray (tail (np.shape a))
    ((λ p, let xs := (λ k, np.flat a !!! (k * plane + p)) <$> seq 0 n in
           let m := mean xs in
           sqrt (mean ((λ x, (x - m) * (x - m))%Q <$> xs))) <$> seq 0 plane).

Definition terminate (sqrt : Q → Q) (self : t) : M () :=
  planes ← mapM load (images self);
  arr ← lift (np.array planes);
  let std := std_axis0 sqrt arr in
  let stack_hdu := PrimaryHDU std (default ∅ (stack_header self)) in
  let stack_hdu := set_primary "IMTYPE" (VStr "std") stack_hdu in
  writeto stack_hdu (destination self) (overwrite self).

End StackStd.

(** ** [CleanCosmics] *)
Module CleanCosmics.

(** [std_stack] is first assigned by [initialize]; before that the
    attribute does not exist. *)
Record t : Type := mk {
  stack_data : option (np.ndarray Q);
  threshold : Q;
  std_stack : option (np.ndarray Q)
}.

(** [__init__(threshold=2)] *)
Definition init (threshold : Q) : t := mk None threshold None.

Definition initialize (self : t) (fm : FitsManager) : M t :=
  sd ← (if has_stack fm then
          p ← lift (py_index (get_stack fm) 0);
          Some <$> getdata p
        else mret (stack_data self));
  std ← getdata (path_join (folder fm) "test_std.fits");
  mret (mk sd (threshold self) (Some std)).

(** [None + array] is a [TypeError]. *)
Definition run (self : t) (image : Image) : M () :=
  d ← load (data image);
  std ← lift (or_raise (std_stack self) AttributeError);
  sd ← lift (or_raise (stack_data self) TypeError);
  limit ← lift (elementwise Qplus sd (scalar_op (λ x, x * threshold self)%Q std));
  mask ← lift (elementwise Qgtb d limit);
  values ← lift (getmask sd mask);
  d' ← lift (setmask d mask values);
  store (data image) d'.

End CleanCosmics.

(** ** [SavePhots] *)
Module SavePhots.

(** The manager's [telescope], under a name the block's own field of that
    name does not hide. *)
Definition manager_telescope : FitsManager → Telescope := telescope.

Record t : Type := mk {
  destination : string;
  overwrite : bool;
  telescope : option Telescope;
  images : list Image;
  stack_path : option string;
  fits_manager : option FitsManager
}.

(** [__init__(destination, overwrite=False)] *)
Definition init (destination : string) (overwrite : bool) : t :=
  mk destination overwrite None [] None None.

Definition initialize (self : t) (fm : FitsManager) : M t :=
  sp ← (if has_stack fm then Some <$> lift (py_index (get_stack fm) 0)
        else mret (stack_path self));
  mret (mk (destination self) (overwrite self) (Some (manager_telescope fm)) (images self)
           sp (Some fm)).

Definition run (self : t) (image : Image) : M t :=
  mret (mk (destination self) (overwrite self) (telescope self) (images self ++ [image])
           (stack_path self) (fits_manager self)).

(** The block under [# backward compatibility]: both arrays have axis 1
    moved to the front and then axis 2 moved to the middle; a two-axis
    result is wrapped into one more leading axis afterwards. *)
Definition backward_compatibility (fluxes fluxes_errors : np.ndarray Q)
  : result (np.ndarray Q * np.ndarray Q) :=
  fluxes ← np.moveaxis fluxes 1 0;
  fluxes_errors ← np.moveaxis fluxes_errors 1 0;
  fluxes ← np.moveaxis fluxes 2 1;
  fluxes_errors ← np.moveaxis fluxes_errors 2 1;
  if decide (length (np.shape fluxes) = 2) then
    fluxes' ← np.array [fluxes];
    fluxes_errors' ← np.array [fluxes_errors];
    Ok (fluxes', fluxes_errors')
  else Ok (fluxes, fluxes_errors).

(** The keywords looked for in the headers, in the order of the loop. *)
Definition keywords (tel : Telescope) : list string :=
  [ "sky"; "fwhm"; "fwhmx"; "fwhmy"; "psf_angle"; "dx"; "dy"; "airmass";
    keyword_exposure_time tel; keyword_julian_date tel; keyword_seeing tel;
    keyword_ra tel; keyword_dec tel ].

(** [[image.header[keyword] for image in images]] *)
Definition column (keyword : string) (images : list Image) : result (list card) :=
  mapM (λ image, or_raise (header_get (header image) keyword) (KeyError keyword)) images.

(** The loop filling [data]: a keyword found in the first image's header
    gets the column of its values over all images, under its lower-cased
    name. *)
Fixpoint time_series (images : list Image) (keywords : list string)
    (data : gmap string (list card)) : result (gmap string (list card)) :=
  match keywords with
  | [] => Ok data
  | keyword :: keywords' =>
      first ← or_raise (images !! 0) IndexError;
      if decide (is_Some (header_get (header first) keyword)) then
        _data ← column keyword images;
        time_series images keywords' (<[lower keyword := _data]> data)
      else time_series images keywords' data
  end.

(** The loop over the extra attributes, appending to the HDU list. *)
Fixpoint extra_hdus (images : list Image) (keys : list string) (hdu_list : list hdu)
  : result (list hdu) :=
  match keys with
  | [] => Ok hdu_list
  | key :: keys' =>
      first ← or_raise (images !! 0) IndexError;
      if decide (is_Some (attrs first !! key)) then
        _data ← mapM (λ image, or_raise (attrs image !! key) (KeyError key)) images;
        arr ← np.array _data;
        extra_hdus images keys' (hdu_list ++ [ImageHDU (replace "_" " " key) arr])
      else extra_hdus images keys' hdu_list
  end.

(** What [io.get_files] answers: the path of the one file found, or the
    list of the files found. The function is outside these sources, as is
    [os.path.dirname]; both are passed in. *)
Inductive found : Type :=
  | Path (p : string)
  | Paths (ps : list string).

(** [len(x)] on what was found. *)
Definition len (x : found) : nat :=
  match x with
  | Path p => String.length p
  | Paths ps => length ps
  end.

(** [fits.getheader(x)] on what was found. A list is no file name:
    astropy takes it for a file-like object and fails on it with an
    [OSError] that names no file. *)
Definition getheader_found (x : found) : M Header :=
  match x with
  | Path p => getheader p
  | Paths _ => lift (Raise (OSError EmptyString))
  end.

(** Lines 216 to 222: the header of the primary HDU, from the registered
    stack, else from what the search next to the destination found, else
    empty. The header read is handed to [fits.PrimaryHDU(header=...)],
    which keeps a stripped copy of it. *)
Definition primary_hdu (get_files : string → string → found)
    (dirname : string → string) (self : t) : M Header :=
  match stack_path self with
  | Some p => strip <$> getheader p
  | None =>
      let stack_path := get_files "_stack.fits" (dirname (destination self)) in
      if decide (0 < len stack_path) then strip <$> getheader_found stack_path
      else mret ∅
  end.

(** Lines 226 to 239: the flux and error arrays collected over the images
    and reordered, and the stars of the first image. The [sky] array of
    line 229 is built from plain numbers and not used afterwards. *)
Definition collect (self : t) : result (np.ndarray Q * np.ndarray Q * np.ndarray Q) :=
  fluxes ← np.array (fluxes <$> images self);
  fluxes_errors ← np.array (fluxes_errors <$> images self);
  stars ← stars_coords <$> or_raise (images self !! 0) IndexError;
  '(fluxes, fluxes_errors) ← backward_compatibility fluxes fluxes_errors;
  Ok (fluxes, fluxes_errors, stars).

(** Lines 226 to 287: everything [terminate] puts into the file, given
    the primary header. *)
Definition hdu_list (self : t) (header : Header) : result HDUList :=
  '(fluxes, fluxes_errors, stars) ← collect self;
  tel ← or_raise (telescope self) AttributeError;
  data ← time_series (images self) (keywords tel) ∅;
  let hdus := [ ImageHDU "photometry" fluxes;
                ImageHDU "photometry errors" fluxes_errors;
                ImageHDU "stars" stars;
                BinTableHDU "time series" data ] in
  hdus ← extra_hdus (images self) ["apertures_area"; "annulus_area"] hdus;
  Ok (mk_HDUList header None hdus).

Definition terminate (get_files : string → string → found)
    (dirname : string → string) (self : t) : M () :=
  h ← primary_hdu get_files dirname self;
  reddate ← now;
  file ← lift (hdu_list self (header_set "REDDATE" (VStr reddate) h));
  writeto file (destination self) (overwrite self).

End SavePhots.

(** ** POSIX paths ([os.path]) *)

(** [s.rfind(c)]: the index of the last [c] in [s], if any. *)
Fixpoint rfind (c : ascii) (s : string) : option nat :=
  match s with
  | EmptyString => None
  | String x s' =>
      match rfind c s' with
      | Some i => Some (S i)
      | None => if decide (x = c) then Some 0 else None
      end
  end.

(** [s[n:]] and [s[:n]] *)
Fixpoint string_drop (n : nat) (s : string) : string :=
  match n, s with
  | S n', String _ s' => string_drop n' s'
  | _, _ => s
  end.

Fixpoint string_take (n : nat) (s : string) : string :=
  match n, s with
  | S n', String x s' => String x (string_take n' s')
  | _, _ => EmptyString
  end.

(** [os.path.basename(p)]: what follows the last slash. *)
Definition basename (p : string) : string :=
  match rfind "/" p with
  | Some i => string_drop (S i) p
  | None => p
  end.

(** [os.path.splitext(p)]: the path is cut at its last dot when that dot
    comes after the last slash and some character between the two is not
    a dot; otherwise the extension is empty. *)
Definition splitext (p : string) : string * string :=
  match rfind "." p with
  | None => (p, EmptyString)
  | Some dotIndex =>
      let filenameIndex := match rfind "/" p with Some sepIndex => S sepIndex | None => 0 end in
      if bool_decide (filenameIndex ≤ dotIndex)
         && existsb (λ j, negb (bool_decide (String.get j p = Some "."%char)))
              (seq filenameIndex (dotIndex - filenameIndex))
      then (string_take dotIndex p, string_drop dotIndex p)
      else (p, EmptyString)
  end.

(** ** [SaveReduced] *)
Module SaveReduced.

Record t : Type := mk {
  destination : string;
  overwrite : bool;
  telescope : option Telescope
}.

(** [__init__(destination, overwrite=False)] *)
Definition init (destination : string) (overwrite : bool) : t :=
  mk destination overwrite None.

Definition initialize (self : t) (fm : FitsManager) : M t :=
  mret (mk (destination self) (overwrite self) (Some (SavePhots.manager_telescope fm))).

(** The path of the reduced file: the image's file name without its
    extension, with [_reduced.fits], in the destination folder. *)
Definition fits_new_path (destination image_path : string) : string :=
  path_join destination ((splitext (basename image_path)).1 +:+ "_reduced.fits").

(** [run]. The HDU is built from the array alone and is then given the
    image's header itself: nothing is stripped from it, and the cards set
    on [image.header] are in the file and stay on the image, which comes
    back with them. When the write fails the pipeline stops and the image
    is not used again. *)
Definition run (self : t) (image : Image) : M Image :=
  d ← load (data image);
  tel ← lift (or_raise (telescope self) AttributeError);
  let h := header image in
  let h := header_set "SEEING"
             (default (VStr EmptyString) (header_get h (keyword_seeing tel))) h in
  let h := header_set "BZERO" (VInt 0) h in
  reddate ← now;
  let h := header_set "REDDATE" (VStr reddate) h in
  let h := header_set (keyword_image_type tel) (VStr "reduced") h in
  _ ← writeto (mk_HDUList h (Some d) []) (fits_new_path (destination self) (path image))
        (overwrite self);
  mret (mk_Image (path image) (data image) h (wcs image) (fluxes image)
          (fluxes_errors image) (stars_coords image) (sky image) (attrs image)).

End SaveReduced.

(** ** [NEBCheck.plot_neb_lcs] ([prose/reports/neb_aij.py])

    The pages of light curves: what is plotted on each figure and where
    the figure is saved. The plotting itself is matplotlib's. *)
Module NEBCheck.

(** What one turn of the loop over [split] receives: a group of indexes,
    or one index when the list itself is iterated. *)
Inductive page : Type :=
  | Indexes (idxs : list nat)
  | Index (idx : nat).

(** [range(start, stop, step)] for a positive step. *)
Definition range (start stop step : nat) : list nat :=
  (λ k, start + k * step) <$> seq 0 ((stop - start + (step - 1)) / step).

(** The rows of [np.array(groups)]: the groups themselves when they have
    one length; groups of unequal lengths are refused ([ValueError], as
    numpy does since 1.24). *)
Definition rows (groups : list (list nat)) : result (list (list nat)) :=
  match groups with
  | [] => Ok []
  | g :: _ =>
      if decide (Forall (λ g', length g' = length g) groups) then Ok groups
      else Raise ValueError
  end.

(** Lines 53 to 56: more than 24 indexes are cut into a first page of 24
    and pages of 36; otherwise [split] is the list of indexes itself. *)
Definition split (indexes : list nat) : result (list page) :=
  if decide (24 < length indexes) then
    later ← rows ((λ i, take 36 (drop i indexes)) <$> range 24 (length indexes) 36);
    Ok (Indexes (take 24 indexes) :: (Indexes <$> later))
  else Ok (Index <$> indexes).

(** Lines 57 to 62: the file of each page, [lcs<i>.png] in the folder of
    the disposition. *)
Definition lcs (destination disposition : string) (pages : list page) : list string :=
  imap (λ i _, path_join (path_join destination disposition)
                 ("lcs" +:+ pretty i +:+ ".png")) pages.

End NEBCheck.

(** ** Vocabulary of the properties *)

(** The flip state changes at row [k]: row [k] exists, has a row before
    it, and the two differ. *)
Definition flip_changes_at (flip : list string) (k : nat) : Prop :=
  match k with
  | 0 => False
  | S i => ∃ a b, flip !! i = Some a ∧ flip !! S i = Some b ∧ a ≠ b
  end.

(** The block's header with the cards [Stack.terminate] always sets. *)
Definition stamped (fm : FitsManager) (reddate : string) (h : Header) : Header :=
  header_set "NIMAGES" (VInt (Z.of_nat (length (files fm))))
    (header_set "REDDATE" (VStr reddate)
       (header_set "BZERO" (VInt 0)
          (header_set (keyword_image_type (telescope fm)) (VStr "Stack image") h))).

(** The header [Stack.terminate] hands to [fits.PrimaryHDU]: the stamps,
    and the Julian date of the first row where the flip state changes when
    there is one. *)
Definition final_header (fm : FitsManager) (reddate : string) (h : Header) : Header :=
  match Stack.changing_flip_idxs (df.flip <$> files_df fm) with
  | [] => stamped fm reddate h
  | k :: _ =>
      header_set "FLIPTIME" (VFloat ((df.jd <$> files_df fm) !!! k)) (stamped fm reddate h)
  end.

(** A keyword of the layout or of the scaling of an HDU: one of the fixed
    names [Header._strip] removes, or a name that starts like an axis or a
    column card. Every stripped keyword is one of these. *)
Definition layout_keyword (k : string) : bool :=
  bool_decide (k ∈ [ "SIMPLE"; "XTENSION"; "BITPIX"; "NAXIS"; "EXTEND"; "PCOUNT";
                     "GCOUNT"; "GROUPS"; "BSCALE"; "BZERO"; "TFIELDS" ])
  || existsb (λ p, String.prefix p k)
       [ "NAXIS"; "TFORM"; "TSCAL"; "TZERO"; "TNULL"; "TTYPE"; "TUNIT"; "TDISP";
         "TDIM"; "THEAP"; "TBCOL" ].

(** The accumulator divided by the number of files. *)
Definition divided (fm : FitsManager) (acc : np.ndarray Q) : np.ndarray Q :=
  scalar_op (λ x, x / inject_Z (Z.of_nat (length (files fm))))%Q acc.

(** What [Stack.run] leaves alone in the block, and the header it keeps. *)
Definition same_config (s s' : Stack.t) : Prop :=
  Stack.fits_manager s' = Stack.fits_manager s ∧
  Stack.destination s' = Stack.destination s ∧
  Stack.overwrite s' = Stack.overwrite s ∧
  Stack.reference_image_path s' = Stack.reference_image_path s ∧
  is_Some (Stack.stack_header s').

(** The image the header is taken from comes with a WCS. *)
Definition reference_has_wcs (s : Stack.t) (image : Image) : Prop :=
  Some (path image) = Stack.reference_image_path s → is_Some (wcs image).

(** A computation that writes no file. *)
Definition keeps_fs {A} (m : M A) : Prop :=
  ∀ w r w', m w = (r, w') → fs w' = fs w.

(** A computation that, where [destination] exists, fails and writes no
    file. *)
Definition refuses (destination : string) (m : M ()) : Prop :=
  ∀ w r w', is_Some (fs w !! destination) → m w = (r, w') →
            r ≠ Ok () ∧ fs w' = fs w.





(** What [CleanCosmics.run] makes of a pixel [x], given the stack mean
    [m] and the stack deviation [s] there. *)
Definition clean_pixel (threshold x m s : Q) : Q :=
  if Qgtb x (m + s * threshold) then m else x.

(** A computation that changes no array of the store. *)
Definition keeps_heap {A} (m : M A) : Prop :=
  ∀ w r w', m w = (r, w') → heap w' = heap w.

(** The name an extension is written under. *)
Definition hdu_name (x : hdu) : string :=
  match x with
  | Image_hdu name _ => name
  | BinTable_hdu name _ => name
  end.

(** The element of an array at an index within its shape. *)
Definition item (a : np.ndarray Q) (idx : list nat) : Q :=
  default 0%Q (np.getitem a idx).

(** The arithmetic mean, at one index, of a list of arrays. *)
Definition mean_at (arrays : list (np.ndarray Q)) (idx : list nat) : Q :=
  (StackStd.Qsum ((λ a, item a idx) <$> arrays)
   / inject_Z (Z.of_nat (length arrays)))%Q.

(** The header [SaveReduced.run] leaves on the image and writes. *)
Definition reduced_header (tel : Telescope) (reddate : string) (h : Header) : Header :=
  header_set (keyword_image_type tel) (VStr "reduced")
    (header_set "REDDATE" (VStr reddate)
       (header_set "BZERO" (VInt 0)
          (header_set "SEEING"
             (default (VStr EmptyString) (header_get h (keyword_seeing tel))) h))).

(** An image with another header. *)
Definition with_header (image : Image) (h : Header) : Image :=
  mk_Image (path image) (data image) h (wcs image) (fluxes image)
    (fluxes_errors image) (stars_coords image) (sky image) (attrs image).

(** The indexes a page of [NEBCheck.split] shows. *)
Definition page_indexes (p : NEBCheck.page) : list nat :=
  match p with
  | NEBCheck.Indexes idxs => idxs
  | NEBCheck.Index idx => [idx]
  end.

(** ** Sample data *)
Module sample.

Definition tel : Telescope :=
  mk_Telescope "IMAGETYP" "EXPTIME" "JD" "SEEING" "RA" "DEC".

Definition stars : np.ndarray Q := np.mk_ndarray [2; 2] [10; 20; 30; 40]%Q.

(** An image with the given flux array, header and store reference. *)
Definition image (p : string) (l : nat) (f : np.ndarray Q) (h : Header) : Image :=
  mk_Image p l h None f f stars 0%Q ∅.

(** One frame, two stars, three apertures: the per-image array is
    [star, aperture], the collected one [frame, star, aperture]. *)
Definition phots : SavePhots.t :=
  SavePhots.mk "out.phots" false (Some tel)
    [ image "a.fits" 0 (np.mk_ndarray [2; 3] [1; 2; 3; 4; 5; 6]%Q)
        {[ "SKY" := VInt 7; "JD" := VFloat 2 ]} ]
    None None.

Definition collected : np.ndarray Q := np.mk_ndarray [1; 2; 3] [1; 2; 3; 4; 5; 6]%Q.

Definition reordered : np.ndarray Q := np.mk_ndarray [2; 3; 1] [1; 2; 3; 4; 5; 6]%Q.

(** Two frames of one aperture: the per-image array is [star] alone. *)
Definition phots_1ap : SavePhots.t :=
  SavePhots.mk "out.phots" false (Some tel)
    [ image "a.fits" 0 (np.mk_ndarray [2] [1; 2]%Q) {[ "SKY" := VInt 7 ]};
      image "b.fits" 1 (np.mk_ndarray [2] [3; 4]%Q) {[ "SKY" := VInt 8 ]} ]
    None None.

Definition collected_1ap : np.ndarray Q := np.mk_ndarray [2; 2] [1; 2; 3; 4]%Q.

Definition areas : np.ndarray Q := np.mk_ndarray [3] [1; 2; 3]%Q.

(** A frame of two stars and three apertures, with the areas of its
    apertures attached. *)
Definition frame (p : string) (l : nat) (h : Header) : Image :=
  mk_Image p l h None (np.mk_ndarray [2; 3] [1; 2; 3; 4; 5; 6]%Q)
    (np.mk_ndarray [2; 3] [1; 2; 3; 4; 5; 6]%Q) stars 0%Q
    {[ "apertures_area" := areas ]}.

(** Two frames whose cards are stored in upper case; the second header
    holds a [FWHM] card that the first lacks. The stack is registered. *)
Definition pair_header_a : Header := {[ "SKY" := VInt 7; "JD" := VFloat 2 ]}.
Definition pair_header_b : Header :=
  {[ "SKY" := VInt 8; "JD" := VFloat 3; "FWHM" := VFloat 4 ]}.

Definition phots_pair : SavePhots.t :=
  SavePhots.mk "out.phots" false (Some tel)
    [ frame "a.fits" 0 pair_header_a; frame "b.fits" 1 pair_header_b ]
    (Some "stack.fits") None.

(** The registered stack: its header holds a scaling card. *)
Definition stack_file : HDUList :=
  mk_HDUList {[ "BZERO" := VInt 0; "OBJECT" := VStr "star" ]}
    (Some (np.mk_ndarray [2; 2] [1; 2; 3; 4]%Q)) [].

Definition stack_world : world :=
  mk_world {[ "stack.fits" := stack_file ]} ∅ "2020-01-01T00:00:00".

(** What [terminate] on [phots_pair] writes there. *)
Definition pair_fluxes : np.ndarray Q :=
  np.mk_ndarray [2; 3; 2] [1; 1; 2; 2; 3; 3; 4; 4; 5; 5; 6; 6]%Q.

Definition pair_file : HDUList :=
  mk_HDUList {[ "OBJECT" := VStr "star"; "REDDATE" := VStr "2020-01-01T00:00:00" ]} None
    [ Image_hdu "PHOTOMETRY" pair_fluxes;
      Image_hdu "PHOTOMETRY ERRORS" pair_fluxes;
      Image_hdu "STARS" stars;
      BinTable_hdu "TIME SERIES"
        {[ "sky" := [VInt 7; VInt 8]; "jd" := [VFloat 2; VFloat 3] ]};
      Image_hdu "APERTURES AREA" (np.mk_ndarray [2; 3] [1; 2; 3; 1; 2; 3]%Q) ].

Definition pair_world : world :=
  mk_world {[ "stack.fits" := stack_file; "out.phots" := pair_file ]} ∅
    "2020-01-01T00:00:00".

(** No stack next to the destination. *)
Definition get_files (ext folder : string) : SavePhots.found := SavePhots.Paths [].
Definition dirname (p : string) : string := p.

Definition empty_world : world := mk_world ∅ ∅ "2020-01-01T00:00:00".

(** What [terminate] on [phots] leaves behind in the empty world. *)
Definition phots_file : HDUList :=
  mk_HDUList {[ "REDDATE" := VStr "2020-01-01T00:00:00" ]} None
    [ ImageHDU "photometry" reordered;
      ImageHDU "photometry errors" reordered;
      ImageHDU "stars" stars;
      BinTableHDU "time series" {[ "sky" := [VInt 7]; "jd" := [VFloat 2] ]} ].

Definition phots_world : world :=
  mk_world {[ "out.phots" := phots_file ]} ∅ "2020-01-01T00:00:00".

(** Two frames; the second header lacks the [JD] card of the first. *)
Definition phots_gap : SavePhots.t :=
  SavePhots.mk "out.phots" false (Some tel)
    [ image "a.fits" 0 (np.mk_ndarray [2; 3] [1; 2; 3; 4; 5; 6]%Q)
        {[ "SKY" := VInt 7; "JD" := VFloat 2 ]};
      image "b.fits" 1 (np.mk_ndarray [2; 3] [1; 2; 3; 4; 5; 6]%Q)
        {[ "SKY" := VInt 8 ]} ]
    None None.

(** A dataset of two files; the flip state changes at the second row. *)
Definition fm : FitsManager :=
  mk_FitsManager ["a.fits"; "b.fits"]
    [df.mk_row "EAST" 10%Q; df.mk_row "WEST" 20%Q]
    tel "data" false [].

Definition plane_a : np.ndarray Q := np.mk_ndarray [2; 2] [1; 2; 3; 4]%Q.
Definition plane_b : np.ndarray Q := np.mk_ndarray [2; 2] [3; 4; 5; 6]%Q.

(** The header of the second image's WCS. *)
Definition wcs_b : Header := {[ "CRVAL1" := VInt 5 ]}.

(** The two images; their arrays sit at references 0 and 1 of the store. *)
Definition image_a : Image :=
  mk_Image "a.fits" 0 ∅ (Some ∅) plane_a plane_a stars 0%Q ∅.
Definition image_b : Image :=
  mk_Image "b.fits" 1 ∅ (Some wcs_b) plane_a plane_a stars 0%Q ∅.

Definition dataset_world : world :=
  mk_world {[ "a.fits" := PrimaryHDU plane_a ∅; "b.fits" := PrimaryHDU plane_b ∅ ]}
    {[ 0 := plane_a; 1 := plane_b ]} "2020-01-01T00:00:00".

(** [Stack] after [initialize]: the reference image is the second one. *)
Definition stack_block : Stack.t :=
  Stack.mk (1 # 2) None (Some ∅) "stack.fits" (Some fm) false (Some "b.fits").

(** The sum and the mean of the two planes, as the block computes them. *)
Definition plane_sum : np.ndarray Q := np.mk_ndarray [2; 2] [4; 6; 8; 10]%Q.
Definition plane_mean : np.ndarray Q :=
  np.mk_ndarray [2; 2] [4 # 2; 6 # 2; 8 # 2; 10 # 2]%Q.

(** A dataset whose flip state never changes, and the block after both
    runs when the reference image's header came with a [FLIPTIME] card. *)
Definition fm_steady : FitsManager :=
  mk_FitsManager ["a.fits"; "b.fits"]
    [df.mk_row "EAST" 10%Q; df.mk_row "EAST" 20%Q]
    tel "data" false [].

Definition stale_header : Header := {[ "FLIPTIME" := VFloat 99 ]}.

Definition stack_block_stale : Stack.t :=
  Stack.mk (1 # 2) (Some 0) (Some stale_header) "stack.fits" (Some fm_steady)
    false (Some "b.fits").

(** The block after both runs when the reference image's header came
    with scaling cards. *)
Definition scaled_header : Header :=
  {[ "BSCALE" := VInt 1; "BZERO" := VInt 32768; "OBJECT" := VStr "star" ]}.

Definition stack_block_scaled : Stack.t :=
  Stack.mk (1 # 2) (Some 0) (Some scaled_header) "stack.fits" (Some fm)
    false (Some "b.fits").

(** [StackStd] after both runs, with the header of a registered stack. *)
Definition std_block : StackStd.t :=
  StackStd.mk [0; 1] (Some scaled_header) "std.fits" (Some fm) false None.

(** [Stack] after both runs, and the world then. *)
Definition stack_block_run : Stack.t :=
  Stack.mk (1 # 2) (Some 0) (Some wcs_b) "stack.fits" (Some fm)
    false (Some "b.fits").

Definition dataset_world_run : world :=
  mk_world {[ "a.fits" := PrimaryHDU plane_a ∅; "b.fits" := PrimaryHDU plane_b ∅ ]}
    {[ 0 := plane_sum; 1 := plane_b ]} "2020-01-01T00:00:00".

(** The world after the runs, with a file already at the destination. *)
Definition dataset_world_taken : world :=
  mk_world {[ "stack.fits" := PrimaryHDU plane_a ∅ ]}
    {[ 0 := plane_sum; 1 := plane_b ]} "2020-01-01T00:00:00".

(** An image plane with one spike, a deviation map, and the cleaner with
    [plane_a] as stack mean and threshold 2. *)
Definition plane_spike : np.ndarray Q := np.mk_ndarray [2; 2] [1; 100; 3; 4]%Q.
Definition plane_ones : np.ndarray Q := np.mk_ndarray [2; 2] [1; 1; 1; 1]%Q.

Definition image_spike : Image :=
  mk_Image "c.fits" 0 ∅ None plane_a plane_a stars 0%Q ∅.

Definition cosmics : CleanCosmics.t :=
  CleanCosmics.mk (Some plane_a) 2 (Some plane_ones).

(** The dataset folder holds the deviation map and no stack is registered
    ([fm] has none). *)
Definition cosmics_world : world :=
  mk_world {[ "data/test_std.fits" := PrimaryHDU plane_ones ∅ ]}
    {[ 0 := plane_spike ]} "2020-01-01T00:00:00".

(** A telescope whose seeing keyword is [FWHM], the saving block set up
    for it, and two images of one file name taken on two nights. *)
Definition tel_fwhm : Telescope :=
  mk_Telescope "IMAGETYP" "EXPTIME" "JD" "FWHM" "RA" "DEC".

Definition saver (overwrite : bool) : SaveReduced.t :=
  SaveReduced.mk "out" overwrite (Some tel_fwhm).

Definition night1 : Image :=
  mk_Image "night1/obj.fits" 0 {[ "FWHM" := VFloat 3; "OBJECT" := VStr "star" ]}
    None plane_a plane_a stars 0%Q ∅.
Definition night2 : Image :=
  mk_Image "night2/obj.fits" 1 ∅ None plane_a plane_a stars 0%Q ∅.

(** The world with the reduced file of the first night in place. *)
Definition reduced_world : world :=
  mk_world {[ "out/obj_reduced.fits" := PrimaryHDU plane_a ∅ ]}
    {[ 0 := plane_a; 1 := plane_b ]} "2020-01-01T00:00:00".

End sample.

(** * Properties *)

Import np.

(** ** Indexing *)

Lemma size_cons d sh : size (d :: sh) = d * size sh.
Proof. reflexivity. Qed.

Lemma ravel_lt sh idx r : ravel sh idx = Some r → r < size sh.
Proof.
  revert idx r. induction sh as [|d sh IH]; intros [|i idx] r; simpl; try done.
  - intros [= <-]. lia.
  - case_decide as Hi; [|done].
    destruct (ravel sh idx) as [r'|] eqn:Hr; simpl; [|done].
    intros [= <-]. apply IH in Hr. nia.
Qed.

Lemma ravel_Forall2 sh idx : is_Some (ravel sh idx) ↔ Forall2 lt idx sh.
Proof.
  revert idx. induction sh as [|d sh IH]; intros [|i idx]; simpl.
  - split; [constructor | by eexists].
  - split; [by intros [? ?] | inversion 1].
  - split; [by intros [? ?] | inversion 1].
  - case_decide as Hi.
    + rewrite fmap_is_Some, IH. split; [by constructor | by inversion 1].
    + split; [by intros [? ?] | inversion 1; lia].
Qed.

Lemma length_ndindex sh : length (ndindex sh) = size sh.
Proof.
  induction sh as [|d sh IH]; [done|].
  rewrite size_cons. simpl. generalize 0 at 1. intros a. revert a.
  induction d as [|d IHd]; intros a; simpl; [done|].
  rewrite length_app, length_fmap, IH, IHd. done.
Qed.

Lemma elem_of_ndindex sh idx : idx ∈ ndindex sh ↔ Forall2 lt idx sh.
Proof.
  revert idx. induction sh as [|d sh IH]; intros idx; simpl.
  - rewrite list_elem_of_singleton. split; [intros ->; constructor | by inversion 1].
  - rewrite list_elem_of_bind. split.
    + intros (i & Hidx & Hi). apply elem_of_seq in Hi.
      apply list_elem_of_fmap in Hidx as (idx' & -> & Hidx').
      constructor; [lia | by apply IH].
    + inversion 1 as [|i ? idx' ? Hi Hidx']; subst. exists i. split.
      * apply list_elem_of_fmap. exists idx'. split; [done | by apply IH].
      * apply elem_of_seq. lia.
Qed.

(** In a concatenation of blocks of one length [n], element [r] of block
    [i] sits at offset [i * n + r]. *)
Lemma lookup_bind_blocks {X Y} (f : X → list Y) (l : list X) n i r x :
  (∀ y, length (f y) = n) → l !! i = Some x → r < n →
  (l ≫= f) !! (i * n + r) = f x !! r.
Proof.
  intros Hlen. revert i. induction l as [|y l IH]; intros i Hi Hr; [done|].
  change ((y :: l) ≫= f) with (f y ++ (l ≫= f)).
  destruct i as [|i]; simpl in Hi.
  - injection Hi as ->. simpl. apply lookup_app_l. rewrite Hlen. done.
  - rewrite lookup_app_r by (rewrite Hlen; lia).
    rewrite Hlen. replace (S i * n + r - n) with (i * n + r) by lia. by apply IH.
Qed.

(** [ndindex] enumerates the indices in the order of their offsets. *)
Lemma ndindex_ravel sh idx r : ravel sh idx = Some r → ndindex sh !! r = Some idx.
Proof.
  revert idx r. induction sh as [|d sh IH]; intros [|i idx] r; simpl; try done.
  - by intros [= <-].
  - case_decide as Hi; [|done].
    destruct (ravel sh idx) as [r'|] eqn:Hr; simpl; [|done].
    intros [= <-].
    rewrite (lookup_bind_blocks _ _ (size sh) i r' i).
    + rewrite list_lookup_fmap, (IH _ _ Hr). done.
    + intros y. by rewrite length_fmap, length_ndindex.
    + by apply lookup_seq.
    + by eapply ravel_lt.
Qed.

Lemma lookup_omap_total {X Y} (f : X → option Y) (l : list X) i :
  (∀ x, x ∈ l → is_Some (f x)) → omap f l !! i = l !! i ≫= f.
Proof.
  revert i. induction l as [|x l IH]; intros i Hf; [done|].
  destruct (Hf x) as [y Hy]; [by left|].
  simpl. rewrite Hy. destruct i as [|i]; simpl; [done|].
  apply IH. intros x' Hx'. apply Hf. by right.
Qed.

Lemma length_omap_total {X Y} (f : X → option Y) (l : list X) :
  (∀ x, x ∈ l → is_Some (f x)) → length (omap f l) = length l.
Proof.
  induction l as [|x l IH]; intros Hf; [done|].
  destruct (Hf x) as [y Hy]; [by left|].
  simpl. rewrite Hy. simpl. f_equal. apply IH. intros x' Hx'. apply Hf. by right.
Qed.

(** A well-formed array has an element at every index within its shape. *)
Lemma getitem_is_Some {A} (a : ndarray A) idx :
  wf a → Forall2 lt idx (shape a) → is_Some (getitem a idx).
Proof.
  intros Hwf Hidx. apply ravel_Forall2 in Hidx as [r Hr].
  unfold getitem. rewrite Hr. simpl. apply lookup_lt_is_Some.
  rewrite Hwf. by eapply ravel_lt.
Qed.

(** An array tabulated over its own indices from a function defined on all
    of them returns that function's values. *)
Lemma getitem_tabulate {A} sh (f : list nat → option A) idx :
  (∀ i, i ∈ ndindex sh → is_Some (f i)) → Forall2 lt idx sh →
  getitem (mk_ndarray sh (omap f (ndindex sh))) idx = f idx.
Proof.
  intros Hf Hidx. apply ravel_Forall2 in Hidx as [r Hr].
  unfold getitem. simpl. rewrite Hr. simpl.
  rewrite lookup_omap_total by done. by rewrite (ndindex_ravel _ _ _ Hr).
Qed.

Lemma wf_tabulate {A} sh (f : list nat → option A) :
  (∀ i, i ∈ ndindex sh → is_Some (f i)) →
  wf (mk_ndarray sh (omap f (ndindex sh))).
Proof.
  intros Hf. unfold wf. simpl. by rewrite length_omap_total, length_ndindex.
Qed.


Lemma getitem_transpose {A} (a : ndarray A) axes idx :
  wf a →
  (∀ i, Forall2 lt i ((λ ax, shape a !!! ax) <$> axes) →
        Forall2 lt (source_index axes i) (shape a)) →
  Forall2 lt idx ((λ ax, shape a !!! ax) <$> axes) →
  getitem (transpose a axes) idx = getitem a (source_index axes idx).
Proof.
  intros Hwf Hsrc Hidx. unfold transpose.
  apply (getitem_tabulate _ (λ i, getitem a (source_index axes i))); [|done].
  intros i Hi. apply getitem_is_Some; [done|]. by apply Hsrc, elem_of_ndindex.
Qed.

Lemma wf_transpose {A} (a : ndarray A) axes :
  wf a →
  (∀ i, Forall2 lt i ((λ ax, shape a !!! ax) <$> axes) →
        Forall2 lt (source_index axes i) (shape a)) →
  wf (transpose a axes).
Proof.
  intros Hwf Hsrc. unfold transpose. apply wf_tabulate.
  intros i Hi. apply getitem_is_Some; [done|]. by apply Hsrc, elem_of_ndindex.
Qed.

(** Inversion of an index within a three-axis shape. *)
Lemma Forall2_lt_3 idx d0 d1 d2 :
  Forall2 lt idx [d0; d1; d2] ↔ ∃ i j k, idx = [i; j; k] ∧ i < d0 ∧ j < d1 ∧ k < d2.
Proof.
  split.
  - intros H. inversion H as [|i ? idx1 ? Hi H1]; subst.
    inversion H1 as [|j ? idx2 ? Hj H2]; subst.
    inversion H2 as [|k ? idx3 ? Hk H3]; subst.
    inversion H3; subst. by exists i, j, k.
  - intros (i & j & k & -> & ? & ? & ?). by repeat constructor.
Qed.

(** Moving axis 1 of a three-axis array to the front swaps the first two
    axes. *)
Lemma moveaxis_1_0 {A} (a : ndarray A) d0 d1 d2 :
  wf a → shape a = [d0; d1; d2] →
  ∃ b, moveaxis a 1 0 = Ok b ∧ wf b ∧ shape b = [d1; d0; d2] ∧
       ∀ i j k, i < d1 → j < d0 → k < d2 → getitem b [i; j; k] = getitem a [j; i; k].
Proof.
  intros Hwf Hsh. exists (transpose a [1; 0; 2]).
  assert (Hsrc : ∀ i, Forall2 lt i ((λ ax, shape a !!! ax) <$> [1; 0; 2]) →
                      Forall2 lt (source_index [1; 0; 2] i) (shape a)).
  { intros idx. rewrite Hsh. simpl. rewrite !Forall2_lt_3.
    intros (i & j & k & -> & ? & ? & ?). by exists j, i, k. }
  split_and!.
  - unfold moveaxis, ndim. rewrite Hsh. reflexivity.
  - by apply wf_transpose.
  - simpl. by rewrite Hsh.
  - intros i j k Hi Hj Hk. rewrite getitem_transpose; [done..|].
    rewrite Hsh. simpl. by repeat constructor.
Qed.

(** Moving axis 2 of a three-axis array to the middle swaps the last two
    axes. *)
Lemma moveaxis_2_1 {A} (a : ndarray A) d0 d1 d2 :
  wf a → shape a = [d0; d1; d2] →
  ∃ b, moveaxis a 2 1 = Ok b ∧ wf b ∧ shape b = [d0; d2; d1] ∧
       ∀ i j k, i < d0 → j < d2 → k < d1 → getitem b [i; j; k] = getitem a [i; k; j].
Proof.
  intros Hwf Hsh. exists (transpose a [0; 2; 1]).
  assert (Hsrc : ∀ i, Forall2 lt i ((λ ax, shape a !!! ax) <$> [0; 2; 1]) →
                      Forall2 lt (source_index [0; 2; 1] i) (shape a)).
  { intros idx. rewrite Hsh. simpl. rewrite !Forall2_lt_3.
    intros (i & j & k & -> & ? & ? & ?). by exists i, k, j. }
  split_and!.
  - unfold moveaxis, ndim. rewrite Hsh. reflexivity.
  - by apply wf_transpose.
  - simpl. by rewrite Hsh.
  - intros i j k Hi Hj Hk. rewrite getitem_transpose; [done..|].
    rewrite Hsh. simpl. by repeat constructor.
Qed.

(** ** Headers *)

Lemma upper_lower_ascii c : upper_ascii (lower_ascii c) = upper_ascii c.
Proof. by destruct c as [[] [] [] [] [] [] [] []]. Qed.

Lemma upper_lower s : upper (lower s) = upper s.
Proof.
  induction s as [|c s IH]; [done|]. simpl. by rewrite upper_lower_ascii, IH.
Qed.

(** Keywords that differ in letter case only name the same card. *)
Lemma header_get_lower h k k' : lower k = lower k' → header_get h k = header_get h k'.
Proof.
  intros Heq. unfold header_get, normalize_keyword.
  by rewrite <-(upper_lower k), <-(upper_lower k'), Heq.
Qed.

Lemma header_get_set_eq k v h : header_get (header_set k v h) k = Some v.
Proof. apply lookup_insert_eq. Qed.

Lemma lookup_header_set_eq k v h : header_set k v h !! normalize_keyword k = Some v.
Proof. apply lookup_insert_eq. Qed.

Lemma lookup_header_set_ne k k' v h :
  normalize_keyword k ≠ k' → header_set k v h !! k' = h !! k'.
Proof. intros Hne. by apply lookup_insert_ne. Qed.

Lemma lookup_strip h k :
  strip h !! k = if decide (k ∈ stripped_keywords h) then None else h !! k.
Proof.
  unfold strip. case_decide as Hk.
  - apply map_lookup_filter_None. right. intros v _ Hnot. by apply Hnot.
  - destruct (h !! k) as [v|] eqn:Hv.
    + apply map_lookup_filter_Some. by split.
    + apply map_lookup_filter_None. by left.
Qed.

Lemma prefix_app (p s : string) : String.prefix p (p +:+ s) = true.
Proof.
  induction p as [|c p IH]; simpl; [by destruct s|].
  by destruct (ascii_dec c c).
Qed.

(** What is stripped is a keyword of the layout. *)
Lemma stripped_keywords_layout h k : k ∈ stripped_keywords h → layout_keyword k = true.
Proof.
  unfold stripped_keywords, layout_keyword.
  intros [Hk|[Hk|Hk]%elem_of_app]%elem_of_app.
  - apply list_elem_of_fmap in Hk as (idx & -> & _).
    apply orb_true_iff. right. apply existsb_exists.
    exists "NAXIS". split; [by left | apply prefix_app].
  - apply list_elem_of_bind in Hk as (name & Hk & Hname).
    apply list_elem_of_fmap in Hk as (idx & -> & _).
    apply orb_true_iff. right. apply existsb_exists.
    exists name. split; [|apply prefix_app].
    apply list_elem_of_In. by right.
  - apply orb_true_iff. left. by apply bool_decide_eq_true.
Qed.

(** A card that is no keyword of the layout goes through [strip]. *)
Lemma lookup_strip_other h k : layout_keyword k = false → strip h !! k = h !! k.
Proof.
  intros Hk. rewrite lookup_strip. case_decide as Hin; [|done].
  apply stripped_keywords_layout in Hin. congruence.
Qed.

(** The scaling cards do not. *)
Lemma lookup_strip_fixed h k :
  k ∈ [ "SIMPLE"; "XTENSION"; "BITPIX"; "NAXIS"; "EXTEND"; "PCOUNT"; "GCOUNT";
        "GROUPS"; "BSCALE"; "BZERO"; "TFIELDS" ] →
  strip h !! k = None.
Proof.
  intros Hk. rewrite lookup_strip. rewrite decide_True; [done|].
  unfold stripped_keywords. rewrite !elem_of_app. by right; right.
Qed.

(** ** [SavePhots]: the flux arrays *)

Lemma length_bind_blocks {X Y} (f : X → list Y) (l : list X) n :
  (∀ y, y ∈ l → length (f y) = n) → length (l ≫= f) = length l * n.
Proof.
  induction l as [|x l IH]; intros Hlen; [done|].
  change ((x :: l) ≫= f) with (f x ++ (l ≫= f)).
  rewrite length_app, Hlen by left. rewrite IH; [done|].
  intros y Hy. apply Hlen. by right.
Qed.

(** Stacking well-formed arrays gives a well-formed array. *)
Lemma wf_array {A} (l : list (ndarray A)) a :
  Forall wf l → array l = Ok a → wf a.
Proof.
  intros Hwf. unfold array. destruct l as [|a0 l]; [by intros [= <-]|].
  case_decide as Hsh; [|done]. intros [= <-]. unfold wf.
  change (length ((a0 :: l) ≫= flat) = length (a0 :: l) * size (shape a0)).
  apply length_bind_blocks. intros b Hb.
  rewrite Forall_forall in Hwf, Hsh. rewrite (Hwf b Hb). f_equal. by apply Hsh.
Qed.

(** On three-axis arrays the reordering rotates the axes: the leading
    axis goes last. *)
Lemma backward_compatibility_3d (f e : ndarray Q) d0 d1 d2 e0 e1 e2 :
  wf f → wf e → shape f = [d0; d1; d2] → shape e = [e0; e1; e2] →
  ∃ out eout,
    SavePhots.backward_compatibility f e = Ok (out, eout) ∧
    shape out = [d1; d2; d0] ∧ shape eout = [e1; e2; e0] ∧
    (∀ i j k, i < d1 → j < d2 → k < d0 → getitem out [i; j; k] = getitem f [k; i; j]) ∧
    (∀ i j k, i < e1 → j < e2 → k < e0 → getitem eout [i; j; k] = getitem e [k; i; j]).
Proof.
  intros Hf He Hfs Hes.
  destruct (moveaxis_1_0 f d0 d1 d2 Hf Hfs) as (f1 & Ef1 & Hf1 & Hf1s & Gf1).
  destruct (moveaxis_1_0 e e0 e1 e2 He Hes) as (e1' & Ee1 & He1 & He1s & Ge1).
  destruct (moveaxis_2_1 f1 d1 d0 d2 Hf1 Hf1s) as (f2 & Ef2 & Hf2 & Hf2s & Gf2).
  destruct (moveaxis_2_1 e1' e1 e0 e2 He1 He1s) as (e2' & Ee2 & He2 & He2s & Ge2).
  exists f2, e2'. split_and!; [|done|done|..].
  - unfold SavePhots.backward_compatibility.
    rewrite Ef1. simpl. rewrite Ee1. simpl. rewrite Ef2. simpl. rewrite Ee2. simpl.
    rewrite Hf2s. done.
  - intros i j k Hi Hj Hk. rewrite Gf2, Gf1 by done. done.
  - intros i j k Hi Hj Hk. rewrite Ge2, Ge1 by done. done.
Qed.

(** On two-axis arrays the second move asks for an axis that is not there. *)
Lemma backward_compatibility_2d (f e : ndarray Q) :
  ndim f = 2 → ndim e = 2 →
  SavePhots.backward_compatibility f e = Raise (AxisError 2 2).
Proof.
  unfold ndim. intros Hf He.
  destruct (shape f) as [|d0 [|d1 [|]]] eqn:Hfs; try done.
  destruct (shape e) as [|e0 [|e1 [|]]] eqn:Hes; try done.
  unfold SavePhots.backward_compatibility, moveaxis, ndim.
  rewrite Hfs, Hes. reflexivity.
Qed.

(** ** Stepping through computations *)

Lemma bind_Ok {A B} (m : result A) (f : A → result B) b :
  m ≫= f = Ok b ↔ ∃ a, m = Ok a ∧ f a = Ok b.
Proof.
  destruct m as [a|e]; simpl.
  - split; [by exists a | by intros (? & [= <-] & ?)].
  - split; [done | by intros (? & ? & ?)].
Qed.

Lemma M_bind_Ok {A B} (m : M A) (f : A → M B) w b w' :
  (m ≫= f) w = (Ok b, w') ↔ ∃ a w1, m w = (Ok a, w1) ∧ f a w1 = (Ok b, w').
Proof.
  unfold mbind, M_bind. destruct (m w) as [[a|e] w1].
  - split; [by exists a, w1 | by intros (? & ? & [= <- <-] & ?)].
  - split; [done | by intros (? & ? & ? & ?)].
Qed.

Lemma writeto_Ok file dest ow w w' :
  writeto file dest ow w = (Ok (), w') ↔
  (fs w !! dest = None ∨ ow = true) ∧
  w' = mk_world (<[dest := file]> (fs w)) (heap w) (clock w).
Proof.
  unfold writeto. destruct (fs w !! dest) as [old|], ow.
  - split; [intros [= <-]; auto | by intros [_ ->]].
  - split; [done | by intros [[?|?] _]].
  - split; [intros [= <-]; auto | by intros [_ ->]].
  - split; [intros [= <-]; auto | by intros [_ ->]].
Qed.

(** A destination that exists is left alone, with an [OSError], when
    [overwrite] is off. *)
Lemma writeto_conflict file dest w :
  is_Some (fs w !! dest) → writeto file dest false w = (Raise (OSError dest), w).
Proof. intros [old Hold]. unfold writeto. by rewrite Hold. Qed.

(** ** [SavePhots]: what [terminate] writes *)

Lemma primary_hdu_world gf dn self w r w' :
  SavePhots.primary_hdu gf dn self w = (r, w') → w' = w.
Proof.
  unfold SavePhots.primary_hdu, SavePhots.getheader_found, getheader, lift,
    fmap, M_fmap.
  destruct (SavePhots.stack_path self) as [p|].
  - destruct (or_raise _ _); by intros [= _ <-].
  - case_decide; [|by intros [= _ <-]].
    destruct (gf _ _) as [p|ps]; [destruct (or_raise _ _)|]; by intros [= _ <-].
Qed.

Lemma extra_hdus_prefix images keys hl hl' :
  SavePhots.extra_hdus images keys hl = Ok hl' → ∃ extra, hl' = hl ++ extra.
Proof.
  revert hl. induction keys as [|key keys IH]; intros hl; simpl.
  - intros [= <-]. exists []. by rewrite app_nil_r.
  - destruct (images !! 0) as [first|]; simpl; [|done].
    case_decide; [|by apply IH].
    destruct (mapM _ images) as [_data|]; simpl; [|done].
    destruct (array _data) as [arr|]; simpl; [|done].
    intros [extra ->]%IH. eexists. by rewrite <-app_assoc.
Qed.

Lemma hdu_list_Ok self h file :
  SavePhots.hdu_list self h = Ok file ↔
  ∃ out eout stars tel data hdus,
    SavePhots.collect self = Ok (out, eout, stars) ∧
    SavePhots.telescope self = Some tel ∧
    SavePhots.time_series (SavePhots.images self) (SavePhots.keywords tel) ∅ = Ok data ∧
    SavePhots.extra_hdus (SavePhots.images self) ["apertures_area"; "annulus_area"]
      [ImageHDU "photometry" out; ImageHDU "photometry errors" eout;
       ImageHDU "stars" stars; BinTableHDU "time series" data] = Ok hdus ∧
    file = mk_HDUList h None hdus.
Proof.
  unfold SavePhots.hdu_list. split.
  - intros ([[out eout] stars] & Hc & H)%bind_Ok.
    apply bind_Ok in H as (tel & Htel & H).
    apply bind_Ok in H as (data & Hts & H).
    apply bind_Ok in H as (hdus & Hx & [= <-]).
    exists out, eout, stars, tel, data, hdus.
    destruct (SavePhots.telescope self) as [tel'|]; [|discriminate Htel].
    injection Htel as ->. by split_and!.
  - intros (out & eout & stars & tel & data & hdus & Hc & Htel & Hts & Hx & ->).
    apply bind_Ok. exists (out, eout, stars). split; [done|].
    apply bind_Ok. exists tel. split; [by rewrite Htel|].
    apply bind_Ok. exists data. split; [done|].
    apply bind_Ok. by exists hdus.
Qed.

Lemma SavePhots_terminate_Ok gf dn self w w' :
  SavePhots.terminate gf dn self w = (Ok (), w') ↔
  ∃ h file,
    SavePhots.primary_hdu gf dn self w = (Ok h, w) ∧
    SavePhots.hdu_list self (header_set "REDDATE" (VStr (clock w)) h) = Ok file ∧
    (fs w !! SavePhots.destination self = None ∨ SavePhots.overwrite self = true) ∧
    w' = mk_world (<[SavePhots.destination self := file]> (fs w)) (heap w) (clock w).
Proof.
  unfold SavePhots.terminate. rewrite M_bind_Ok. split.
  - intros (h & w1 & Hh & Hrest).
    pose proof (primary_hdu_world _ _ _ _ _ _ Hh) as ->.
    apply M_bind_Ok in Hrest as (reddate & w2 & [= <- <-] & Hrest).
    apply M_bind_Ok in Hrest as (file & w3 & Hfile & Hw).
    unfold lift in Hfile. injection Hfile as Hfile <-.
    apply writeto_Ok in Hw as [Hd ->]. by exists h, file.
  - intros (h & file & Hh & Hfile & Hd & ->). exists h, w. split; [done|].
    apply M_bind_Ok. exists (clock w), w. split; [done|].
    apply M_bind_Ok. exists file, w. split; [by unfold lift; rewrite Hfile|].
    by apply writeto_Ok.
Qed.

(** C1 (as amended). The two moves rotate the axes of a three-axis
    collected array: the leading (frame) axis goes last and the other two
    keep their order. For a collected array of shape [d0, d1, d2] the
    flux section has shape [d1, d2, d0] and [out[i, j, k] = in[k, i, j]];
    so a [frame, aperture, star] collection gives [aperture, star, frame].
    The error array is reordered the same way, and these are the arrays
    [terminate] writes as the two first extensions. *)
Theorem C1_flux_section_rotates_axes gf dn (self : SavePhots.t)
    (inp inp_err : ndarray Q) d0 d1 d2 :
  Forall wf (fluxes <$> SavePhots.images self) →
  Forall wf (fluxes_errors <$> SavePhots.images self) →
  array (fluxes <$> SavePhots.images self) = Ok inp →
  array (fluxes_errors <$> SavePhots.images self) = Ok inp_err →
  shape inp = [d0; d1; d2] → shape inp_err = [d0; d1; d2] →
  ∃ out eout,
    SavePhots.backward_compatibility inp inp_err = Ok (out, eout) ∧
    shape out = [d1; d2; d0] ∧ shape eout = [d1; d2; d0] ∧
    (∀ i j k, i < d1 → j < d2 → k < d0 →
       getitem out [i; j; k] = getitem inp [k; i; j] ∧
       getitem eout [i; j; k] = getitem inp_err [k; i; j]) ∧
    ∀ w w', SavePhots.terminate gf dn self w = (Ok (), w') →
      ∃ file, fs w' !! SavePhots.destination self = Some file ∧
        extensions file !! 0 = Some (ImageHDU "photometry" out) ∧
        extensions file !! 1 = Some (ImageHDU "photometry errors" eout).
Proof.
  intros Hwf Hwfe Hin Hine Hsh Hshe.
  destruct (backward_compatibility_3d inp inp_err d0 d1 d2 d0 d1 d2)
    as (out & eout & Hbc & Hout & Heout & Hget & Hgete);
    [exact (wf_array _ _ Hwf Hin) | exact (wf_array _ _ Hwfe Hine) | done | done |].
  exists out, eout. split_and!; [done..| |].
  - intros i j k Hi Hj Hk. split; [by apply Hget | by apply Hgete].
  - intros w w' (h & file & _ & Hfile & _ & ->)%SavePhots_terminate_Ok.
    apply hdu_list_Ok in Hfile
      as (out' & eout' & stars & tel & data & hdus & Hc & _ & _ & Hx & ->).
    unfold SavePhots.collect in Hc. rewrite Hin, Hine in Hc.
    apply bind_Ok in Hc as (a1 & [= <-] & Hc).
    apply bind_Ok in Hc as (a2 & [= <-] & Hc).
    apply bind_Ok in Hc as (st & _ & Hc).
    rewrite Hbc in Hc. injection Hc as <- <- <-.
    apply extra_hdus_prefix in Hx as [extra ->].
    eexists. split; [apply lookup_insert_eq|]. by split.
Qed.

Lemma C1_flux_section_rotates_axes_witness :
  ∃ out eout,
    SavePhots.backward_compatibility sample.collected sample.collected = Ok (out, eout) ∧
    shape out = [2; 3; 1] ∧ shape eout = [2; 3; 1] ∧
    (∀ i j k, i < 2 → j < 3 → k < 1 →
       getitem out [i; j; k] = getitem sample.collected [k; i; j] ∧
       getitem eout [i; j; k] = getitem sample.collected [k; i; j]) ∧
    ∀ w w', SavePhots.terminate sample.get_files sample.dirname sample.phots w = (Ok (), w') →
      ∃ file, fs w' !! SavePhots.destination sample.phots = Some file ∧
        extensions file !! 0 = Some (ImageHDU "photometry" out) ∧
        extensions file !! 1 = Some (ImageHDU "photometry errors" eout).
Proof.
  apply (C1_flux_section_rotates_axes sample.get_files sample.dirname sample.phots
           sample.collected sample.collected 1 2 3).
  - repeat constructor.
  - repeat constructor.
  - reflexivity.
  - reflexivity.
  - reflexivity.
  - reflexivity.
Defined.

(** C1 as stated fails: with one frame, two stars and three apertures
    collected in [frame, star, aperture] order, the flux section comes out
    with shape [2, 3, 1], that is [star, aperture, frame], and not
    [aperture, star, frame]. *)
Lemma C1_counterexample :
  array (fluxes <$> SavePhots.images sample.phots) = Ok sample.collected ∧
  shape sample.collected = [1; 2; 3] ∧
  SavePhots.backward_compatibility sample.collected sample.collected
    = Ok (sample.reordered, sample.reordered) ∧
  ¬ (shape sample.reordered = [3; 2; 1] ∧
     ∀ a s f, a < 3 → s < 2 → f < 1 →
       getitem sample.reordered [a; s; f] = getitem sample.collected [f; s; a]).
Proof.
  split_and!; [reflexivity..|]. intros [Hshape _]. discriminate Hshape.
Qed.

(** C2 fails on the code. A collected array of two axes passes the first
    move and makes the second one raise: axis 2 does not exist. The test
    on the number of axes that follows is never reached with two axes,
    and [terminate] writes nothing. *)
Theorem C2_single_aperture_raises gf dn (self : SavePhots.t)
    (inp inp_err : ndarray Q) :
  array (fluxes <$> SavePhots.images self) = Ok inp →
  array (fluxes_errors <$> SavePhots.images self) = Ok inp_err →
  SavePhots.images self ≠ [] →
  ndim inp = 2 → ndim inp_err = 2 →
  SavePhots.collect self = Raise (AxisError 2 2) ∧
  (∀ h, SavePhots.hdu_list self h = Raise (AxisError 2 2)) ∧
  ∀ w w', SavePhots.terminate gf dn self w ≠ (Ok (), w').
Proof.
  intros Hin Hine Hne Hnd Hnde.
  assert (Hc : SavePhots.collect self = Raise (AxisError 2 2)).
  { destruct (SavePhots.images self !! 0) as [first|] eqn:Hfirst.
    - unfold SavePhots.collect. rewrite Hin, Hine, Hfirst.
      pose proof (backward_compatibility_2d inp inp_err Hnd Hnde) as Hbc.
      unfold mbind, result_bind, fmap, result_fmap, or_raise. by rewrite Hbc.
    - destruct (SavePhots.images self); [done | discriminate Hfirst]. }
  assert (Hh : ∀ h, SavePhots.hdu_list self h = Raise (AxisError 2 2)).
  { intros h. unfold SavePhots.hdu_list. by rewrite Hc. }
  split_and!; [done..|].
  intros w w' (h & file & _ & Hfile & _)%SavePhots_terminate_Ok.
  by rewrite Hh in Hfile.
Qed.

Lemma C2_single_aperture_raises_witness :
  SavePhots.collect sample.phots_1ap = Raise (AxisError 2 2) ∧
  (∀ h, SavePhots.hdu_list sample.phots_1ap h = Raise (AxisError 2 2)) ∧
  ∀ w w', SavePhots.terminate sample.get_files sample.dirname sample.phots_1ap w ≠ (Ok (), w').
Proof.
  apply (C2_single_aperture_raises sample.get_files sample.dirname sample.phots_1ap
           sample.collected_1ap sample.collected_1ap).
  - reflexivity.
  - reflexivity.
  - discriminate.
  - reflexivity.
  - reflexivity.
Defined.

(** ** [SavePhots]: the table of header values *)

Lemma column_Raise keyword images e :
  SavePhots.column keyword images = Raise e → e = KeyError keyword.
Proof.
  unfold SavePhots.column. induction images as [|image images IH]; simpl; [done|].
  destruct (header_get (header image) keyword) as [v|]; simpl; [|by intros [= <-]].
  destruct (mapM _ images) as [vs|e']; simpl; [done|].
  intros [= <-]. by apply IH.
Qed.

Lemma column_missing keyword images later :
  later ∈ images → header_get (header later) keyword = None →
  SavePhots.column keyword images = Raise (KeyError keyword).
Proof.
  intros Hin Hnone.
  destruct (SavePhots.column keyword images) as [vs|e] eqn:Hcol;
    [|by rewrite (column_Raise _ _ _ Hcol)].
  exfalso. revert vs Hcol. unfold SavePhots.column.
  induction images as [|image images IH]; intros vs; [by apply elem_of_nil in Hin|].
  simpl. apply elem_of_cons in Hin as [<-|Hin]; [by rewrite Hnone|].
  destruct (header_get (header image) keyword) as [v|]; simpl; [|done].
  destruct (mapM _ images) as [vs'|e'] eqn:Hrest; simpl; [|done].
  intros _. by eapply IH.
Qed.

(** The keys of the table are the lower-cased keywords found in the
    first image's header, beside those it started with. *)
Lemma time_series_keys images first keywords data0 data :
  images !! 0 = Some first →
  SavePhots.time_series images keywords data0 = Ok data →
  ∀ c, is_Some (data !! c) ↔
       is_Some (data0 !! c) ∨
       ∃ k, k ∈ keywords ∧ is_Some (header_get (header first) k) ∧ c = lower k.
Proof.
  intros Hfirst. revert data0.
  induction keywords as [|kw keywords IH]; intros data0; simpl.
  - intros [= <-] c. split; [auto|]. intros [?|(k & Hk & _)]; [done|].
    by apply elem_of_nil in Hk.
  - rewrite Hfirst. simpl. case_decide as Hkw.
    + intros (col & _ & Hrest)%bind_Ok c. rewrite (IH _ Hrest).
      rewrite lookup_insert_is_Some. split.
      * intros [[<-|[_ ?]]|(k & Hk & Hh & ->)]; [|by left|].
        -- right. exists kw. split_and!; [left|done|done].
        -- right. exists k. split_and!; [by right|done|done].
      * intros [?|(k & Hk & Hh & ->)].
        -- left. destruct (decide (lower kw = c)); [by left | by right].
        -- apply elem_of_cons in Hk as [->|Hk]; [left; by left|].
           right. by exists k.
    + intros Hrest c. rewrite (IH _ Hrest). split.
      * intros [?|(k & Hk & Hh & ->)]; [by left|].
        right. exists k. split_and!; [by right|done|done].
      * intros [?|(k & Hk & Hh & ->)]; [by left|].
        apply elem_of_cons in Hk as [->|Hk]; [done|].
        right. by exists k.
Qed.

(** A keyword admitted by the first header and missing from a later one
    makes the loop raise [KeyError], on the first keyword in loop order
    that some image lacks. *)
Lemma time_series_missing images first later keywords data0 k :
  images !! 0 = Some first →
  k ∈ keywords → is_Some (header_get (header first) k) →
  later ∈ images → header_get (header later) k = None →
  ∃ k', k' ∈ keywords ∧ is_Some (header_get (header first) k') ∧
        SavePhots.time_series images keywords data0 = Raise (KeyError k').
Proof.
  intros Hfirst Hk Hh Hlater Hnone. revert data0.
  induction keywords as [|kw keywords IH]; intros data0.
  - by apply elem_of_nil in Hk.
  - simpl. rewrite Hfirst. simpl. apply elem_of_cons in Hk as [<-|Hk].
    + rewrite decide_True by done.
      rewrite (column_missing _ _ _ Hlater Hnone). exists k. split_and!; [left|done..].
    + case_decide as Hkw.
      * destruct (SavePhots.column kw images) as [col|e] eqn:Hcol; simpl.
        -- destruct (IH Hk (<[lower kw := col]> data0)) as (k' & ? & ? & ->).
           exists k'. split_and!; [by right|done..].
        -- rewrite (column_Raise _ _ _ Hcol). exists kw. split_and!; [left|done..].
      * destruct (IH Hk data0) as (k' & ? & ? & ->).
        exists k'. split_and!; [by right|done..].
Qed.

(** Lower-casing leaves lower-cased text as it is. *)
Lemma lower_ascii_idemp c : lower_ascii (lower_ascii c) = lower_ascii c.
Proof. by destruct c as [[] [] [] [] [] [] [] []]. Qed.

Lemma lower_idemp s : lower (lower s) = lower s.
Proof.
  induction s as [|c s IH]; [done|]. simpl. by rewrite lower_ascii_idemp, IH.
Qed.

(** [terminate] propagates what the assembly of the file raises. *)
Lemma SavePhots_terminate_Raise gf dn self w h e :
  SavePhots.primary_hdu gf dn self w = (Ok h, w) →
  SavePhots.hdu_list self (header_set "REDDATE" (VStr (clock w)) h) = Raise e →
  SavePhots.terminate gf dn self w = (Raise e, w).
Proof.
  intros Hh He. unfold SavePhots.terminate, mbind, M_bind.
  rewrite Hh. unfold now, lift. by rewrite He.
Qed.

(** C6. The table [terminate] writes has, as keys, exactly the lower-cased
    recognized keywords found in the header of the first collected image,
    and every key of it is in lower case. In particular a recognized
    keyword missing from that header brings no entry, whatever the later
    headers hold. *)
Theorem C6_first_frame_governs gf dn (self : SavePhots.t) tel first w w' :
  SavePhots.telescope self = Some tel →
  SavePhots.images self !! 0 = Some first →
  SavePhots.terminate gf dn self w = (Ok (), w') →
  ∃ file data,
    fs w' !! SavePhots.destination self = Some file ∧
    extensions file !! 3 = Some (BinTableHDU "time series" data) ∧
    (∀ c, is_Some (data !! c) ↔
          ∃ k, k ∈ SavePhots.keywords tel ∧ is_Some (header_get (header first) k) ∧
               c = lower k) ∧
    (∀ c, is_Some (data !! c) → lower c = c) ∧
    (∀ k, k ∈ SavePhots.keywords tel → header_get (header first) k = None →
          data !! lower k = None).
Proof.
  intros Htel Hfirst (h & file & _ & Hfile & _ & ->)%SavePhots_terminate_Ok.
  apply hdu_list_Ok in Hfile
    as (out & eout & stars & tel' & data & hdus & _ & Htel' & Hts & Hx & ->).
  rewrite Htel in Htel'. injection Htel' as <-.
  apply extra_hdus_prefix in Hx as [extra ->].
  pose proof (time_series_keys _ _ _ _ _ Hfirst Hts) as Hkeys.
  assert (Hiff : ∀ c, is_Some (data !! c) ↔
            ∃ k, k ∈ SavePhots.keywords tel ∧ is_Some (header_get (header first) k) ∧
                 c = lower k).
  { intros c. rewrite Hkeys. split; [|by right].
    intros [[? Hempty]|?]; [|done]. by rewrite lookup_empty in Hempty. }
  exists (mk_HDUList (header_set "REDDATE" (VStr (clock w)) h) None
            ([ImageHDU "photometry" out; ImageHDU "photometry errors" eout;
              ImageHDU "stars" stars; BinTableHDU "time series" data] ++ extra)), data.
  split_and!; [apply lookup_insert_eq | done | done | |].
  { intros c (k & _ & _ & ->)%Hiff. apply lower_idemp. }
  intros k Hk Hnone. apply eq_None_not_Some. rewrite Hiff.
  intros (k' & Hk' & [v Hv] & Hlow).
  rewrite <-(header_get_lower _ _ _ Hlow), Hnone in Hv. done.
Qed.

Lemma C6_first_frame_governs_witness :
  header_get (sample.pair_header_a) "fwhm" = None ∧
  header_get (sample.pair_header_b) "fwhm" = Some (VFloat 4) ∧
  ∃ file data,
    fs sample.pair_world !! SavePhots.destination sample.phots_pair = Some file ∧
    extensions file !! 3 = Some (BinTableHDU "time series" data) ∧
    data !! "sky" = Some [VInt 7; VInt 8] ∧
    data !! "jd" = Some [VFloat 2; VFloat 3] ∧
    data !! "fwhm" = None.
Proof.
  split; [reflexivity|]. split; [reflexivity|].
  destruct (C6_first_frame_governs sample.get_files sample.dirname sample.phots_pair
              sample.tel (sample.frame "a.fits" 0 sample.pair_header_a)
              sample.stack_world sample.pair_world)
    as (file & data & Hfile & Htable & _ & _ & Hnone).
  - reflexivity.
  - reflexivity.
  - vm_compute. reflexivity.
  - exists file, data. split; [exact Hfile|]. split; [exact Htable|].
    injection Hfile as <-. injection Htable as <-.
    split; [reflexivity|]. split; [reflexivity|].
    apply (Hnone "fwhm"); [|reflexivity].
    unfold SavePhots.keywords. right. left.
Defined.

(** C10. When a recognized keyword is in the first collected header and
    missing from a later one, the loop filling the table raises
    [KeyError]; [terminate] then ends with that error once the header and
    the arrays before the loop went through, and in no case succeeds. *)
Theorem C10_missing_keyword_raises gf dn (self : SavePhots.t) tel first later k :
  SavePhots.telescope self = Some tel →
  SavePhots.images self !! 0 = Some first →
  k ∈ SavePhots.keywords tel → is_Some (header_get (header first) k) →
  later ∈ SavePhots.images self → header_get (header later) k = None →
  ∃ k',
    k' ∈ SavePhots.keywords tel ∧ is_Some (header_get (header first) k') ∧
    SavePhots.time_series (SavePhots.images self) (SavePhots.keywords tel) ∅
      = Raise (KeyError k') ∧
    (∀ w h, SavePhots.primary_hdu gf dn self w = (Ok h, w) →
            is_Ok (SavePhots.collect self) →
            SavePhots.terminate gf dn self w = (Raise (KeyError k'), w)) ∧
    (∀ w w', SavePhots.terminate gf dn self w ≠ (Ok (), w')).
Proof.
  intros Htel Hfirst Hk Hh Hlater Hnone.
  destruct (time_series_missing _ _ _ _ ∅ _ Hfirst Hk Hh Hlater Hnone)
    as (k' & Hk' & Hh' & Hts).
  exists k'. split_and!; [done..| |].
  - intros w h Hprim [[[out eout] stars] Hc].
    apply (SavePhots_terminate_Raise _ _ _ _ h); [done|].
    unfold SavePhots.hdu_list. rewrite Hc, Htel.
    unfold mbind, result_bind, or_raise. by rewrite Hts.
  - intros w w' (h & file & _ & Hfile & _)%SavePhots_terminate_Ok.
    apply hdu_list_Ok in Hfile as (? & ? & ? & tel' & data & ? & _ & Htel' & Hts' & _).
    rewrite Htel in Htel'. injection Htel' as <-. by rewrite Hts in Hts'.
Qed.

Lemma C10_missing_keyword_raises_witness :
  ∃ k',
    k' ∈ SavePhots.keywords sample.tel ∧
    is_Some (header_get (header (sample.image "a.fits" 0
                  (mk_ndarray [2; 3] [1; 2; 3; 4; 5; 6]%Q)
                  {[ "SKY" := VInt 7; "JD" := VFloat 2 ]})) k') ∧
    SavePhots.time_series (SavePhots.images sample.phots_gap)
      (SavePhots.keywords sample.tel) ∅ = Raise (KeyError k') ∧
    (∀ w h, SavePhots.primary_hdu sample.get_files sample.dirname sample.phots_gap w
              = (Ok h, w) →
            is_Ok (SavePhots.collect sample.phots_gap) →
            SavePhots.terminate sample.get_files sample.dirname sample.phots_gap w
              = (Raise (KeyError k'), w)) ∧
    (∀ w w', SavePhots.terminate sample.get_files sample.dirname sample.phots_gap w
               ≠ (Ok (), w')).
Proof.
  apply (C10_missing_keyword_raises sample.get_files sample.dirname sample.phots_gap
           sample.tel _
           (sample.image "b.fits" 1 (mk_ndarray [2; 3] [1; 2; 3; 4; 5; 6]%Q)
              {[ "SKY" := VInt 8 ]}) "JD").
  - reflexivity.
  - reflexivity.
  - unfold SavePhots.keywords. simpl. do 9 right. left.
  - by eexists.
  - right. left.
  - reflexivity.
Defined.

(** ** [Stack]: the rows where the flip state changes *)

Lemma changing_flip_idxs_from s (l : list string) :
  fst <$> filter (λ p, (p.2).1 ≠ (p.2).2)
            (zip (seq s (length (zip l (drop 1 l)))) (zip l (drop 1 l)))
  = match l with
    | a :: ((b :: _) as l') =>
        (if decide (a ≠ b) then [s] else []) ++
        (fst <$> filter (λ p, (p.2).1 ≠ (p.2).2)
                   (zip (seq (S s) (length (zip l' (drop 1 l')))) (zip l' (drop 1 l'))))
    | _ => []
    end.
Proof.
  destruct l as [|a [|b l]]; [done..|].
  change (drop 1 (a :: b :: l)) with (b :: l).
  change (drop 1 (b :: l)) with l.
  change (zip (a :: b :: l) (b :: l)) with ((a, b) :: zip (b :: l) l).
  change (length ((a, b) :: zip (b :: l) l)) with (S (length (zip (b :: l) l))).
  change (seq s (S (length (zip (b :: l) l))))
    with (s :: seq (S s) (length (zip (b :: l) l))).
  change (zip (s :: ?x) ((a, b) :: ?y)) with ((s, (a, b)) :: zip x y).
  rewrite filter_cons. simpl. by case_decide.
Qed.

(** The code's list holds the rows where the state changes, the first
    change first. *)
Lemma changing_flip_idxs_spec_from s (l : list string) :
  let idxs := fst <$> filter (λ p, (p.2).1 ≠ (p.2).2)
                (zip (seq s (length (zip l (drop 1 l)))) (zip l (drop 1 l))) in
  (∀ k, k ∈ idxs → ∃ i, k = s + i ∧ flip_changes_at l (S i)) ∧
  (∀ i, flip_changes_at l (S i) →
        ∃ k, head idxs = Some k ∧ k ≤ s + i).
Proof.
  revert s. induction l as [|a l IH]; intros s; [|destruct l as [|b l]].
  - split; [by intros k ?%elem_of_nil | by intros i (? & ? & ? & _)].
  - split; [by intros k ?%elem_of_nil |].
    intros i (x & y & Hx & Hy & _). by destruct i.
  - intros idxs. subst idxs. rewrite changing_flip_idxs_from.
    destruct (IH (S s)) as [IH1 IH2]. split.
    + intros k [Hk|Hk]%elem_of_app.
      * case_decide; [|by apply elem_of_nil in Hk].
        apply list_elem_of_singleton in Hk as ->. exists 0. split; [lia|].
        by exists a, b.
      * destruct (IH1 k Hk) as (i & -> & Hi). exists (S i). split; [lia|].
        destruct Hi as (x & y & ? & ? & ?). by exists x, y.
    + intros i Hi. case_decide as Hab.
      * exists s. split; [done | lia].
      * destruct i as [|i].
        { destruct Hi as (x & y & [= <-] & [= <-] & ?). done. }
        destruct (IH2 i) as (k & Hk & Hle).
        { destruct Hi as (x & y & ? & ? & ?). by exists x, y. }
        exists k. split; [done | lia].
Qed.

Lemma changing_flip_idxs_elem (flip : list string) k :
  k ∈ Stack.changing_flip_idxs flip → flip_changes_at flip k.
Proof.
  intros Hk. destruct (changing_flip_idxs_spec_from 1 flip) as [H1 _].
  destruct (H1 k) as (i & -> & Hi); [exact Hk|]. exact Hi.
Qed.

(** Without a change the list is empty. *)
Lemma changing_flip_idxs_nil (flip : list string) :
  (∀ k, ¬ flip_changes_at flip k) → Stack.changing_flip_idxs flip = [].
Proof.
  intros Hno. destruct (Stack.changing_flip_idxs flip) as [|k rest] eqn:Hidx; [done|].
  destruct (Hno k). apply changing_flip_idxs_elem. rewrite Hidx. left.
Qed.

(** With a change the list starts at the first one. *)
Lemma changing_flip_idxs_head (flip : list string) k :
  flip_changes_at flip k → (∀ j, j < k → ¬ flip_changes_at flip j) →
  head (Stack.changing_flip_idxs flip) = Some k.
Proof.
  intros Hk Hmin. destruct k as [|i]; [done|].
  destruct (changing_flip_idxs_spec_from 1 flip) as [_ H2].
  destruct (H2 i Hk) as (k' & Hhd & Hle).
  change (head (Stack.changing_flip_idxs flip) = Some k') in Hhd.
  rewrite Hhd. f_equal.
  destruct (decide (k' = S i)) as [|Hne]; [done|]. exfalso.
  apply (Hmin k'); [lia|]. apply changing_flip_idxs_elem.
  destruct (Stack.changing_flip_idxs flip); [done|]. injection Hhd as ->. left.
Qed.

(** Every row in the list is a row of the table. *)
Lemma changing_flip_idxs_lt (flip : list string) k :
  k ∈ Stack.changing_flip_idxs flip → k < length flip.
Proof.
  intros Hk%changing_flip_idxs_elem. destruct k as [|i]; [done|].
  destruct Hk as (a & b & _ & Hb & _). by apply lookup_lt_Some in Hb.
Qed.

Lemma iloc_Ok {X} `{Inhabited X} (column : list X) idxs :
  (∀ k, k ∈ idxs → k < length column) →
  Stack.iloc column idxs = Ok ((λ k, column !!! k) <$> idxs).
Proof.
  unfold Stack.iloc. induction idxs as [|k idxs IH]; intros Hlt; [done|].
  simpl. destruct (lookup_lt_is_Some_2 column k) as [x Hx]; [apply Hlt; left|].
  rewrite Hx. simpl. rewrite IH by (intros k' ?; apply Hlt; by right).
  simpl. by rewrite (list_lookup_total_correct _ _ _ Hx).
Qed.

(** ** [Stack]: what [terminate] does *)

(** Once the block holds a manager, a header and an accumulator in the
    store, [terminate] divides the accumulator in place and hands the
    divided array and the final header to [writeto]. *)
Lemma Stack_terminate_eq self fm l acc h0 w :
  Stack.fits_manager self = Some fm → Stack.stack self = Some l →
  heap w !! l = Some acc → Stack.stack_header self = Some h0 →
  Stack.terminate self w =
  writeto (PrimaryHDU (divided fm acc) (final_header fm (clock w) h0))
    (Stack.destination self) (Stack.overwrite self)
    (mk_world (fs w) (<[l := divided fm acc]> (heap w)) (clock w)).
Proof.
  intros Hfm Hl Hacc Hh.
  unfold Stack.terminate, mbind, M_bind, lift, load, store, now, mret, M_ret.
  rewrite Hfm, Hl, Hh. unfold or_raise. rewrite Hacc.
  fold (divided fm acc). fold (stamped fm (clock w) h0).
  unfold final_header.
  destruct (Stack.changing_flip_idxs (df.flip <$> files_df fm)) as [|k idxs] eqn:Hidx.
  - rewrite decide_False by (simpl; lia).
    cbn [heap]. by rewrite lookup_insert_eq.
  - rewrite decide_True by (simpl; lia).
    rewrite (iloc_Ok (df.jd <$> files_df fm) (k :: idxs)).
    + cbn [fmap list_fmap lookup list_lookup heap]. by rewrite lookup_insert_eq.
    + intros k' Hk'. rewrite length_fmap.
      rewrite <-(length_fmap df.flip). apply changing_flip_idxs_lt. by rewrite Hidx.
Qed.

(** C5 (as amended). The header [terminate] writes carries, as
    [FLIPTIME], the Julian date of the first row at which the flip state
    changes, be there one change or several. Without a change [terminate]
    sets no such card and removes none: the written header holds under
    [FLIPTIME] what the block's header held there (the reference image's
    card, if it had one), or the image type when the telescope's keyword
    for it is [FLIPTIME] itself. *)
Theorem C5_fliptime_is_first_transition (self : Stack.t) fm l acc h0 w :
  Stack.fits_manager self = Some fm → Stack.stack self = Some l →
  heap w !! l = Some acc → Stack.stack_header self = Some h0 →
  fs w !! Stack.destination self = None ∨ Stack.overwrite self = true →
  ∃ w' file,
    Stack.terminate self w = (Ok (), w') ∧
    fs w' !! Stack.destination self = Some file ∧
    (∀ k, flip_changes_at (df.flip <$> files_df fm) k →
          (∀ j, j < k → ¬ flip_changes_at (df.flip <$> files_df fm) j) →
          ∃ jd_k, (df.jd <$> files_df fm) !! k = Some jd_k ∧
                  primary_header file !! "FLIPTIME" = Some (VFloat jd_k)) ∧
    ((∀ k, ¬ flip_changes_at (df.flip <$> files_df fm) k) →
     primary_header file !! "FLIPTIME"
     = if decide (normalize_keyword (keyword_image_type (telescope fm)) = "FLIPTIME")
       then Some (VStr "Stack image") else h0 !! "FLIPTIME").
Proof.
  intros Hfm Hl Hacc Hh Hdest.
  eexists _, (PrimaryHDU (divided fm acc) (final_header fm (clock w) h0)). split_and!.
  - rewrite (Stack_terminate_eq _ _ _ _ _ _ Hfm Hl Hacc Hh).
    apply writeto_Ok. split; [exact Hdest | reflexivity].
  - apply lookup_insert_eq.
  - intros k Hk Hmin. pose proof (changing_flip_idxs_head _ _ Hk Hmin) as Hhd.
    cbn [PrimaryHDU primary_header]. rewrite lookup_strip_other by reflexivity.
    unfold final_header.
    destruct (Stack.changing_flip_idxs (df.flip <$> files_df fm)) as [|k' idxs] eqn:Hidx;
      [done|]. injection Hhd as ->.
    assert (Hlt : k < length (df.jd <$> files_df fm)).
    { rewrite length_fmap, <-(length_fmap df.flip).
      apply changing_flip_idxs_lt. rewrite Hidx. left. }
    apply lookup_lt_is_Some_2 in Hlt as [jd_k Hjd]. exists jd_k. split; [done|].
    rewrite (list_lookup_total_correct _ _ _ Hjd).
    apply (lookup_header_set_eq "FLIPTIME").
  - intros Hno. cbn [PrimaryHDU primary_header].
    rewrite lookup_strip_other by reflexivity.
    unfold final_header. rewrite (changing_flip_idxs_nil _ Hno). unfold stamped.
    rewrite !lookup_header_set_ne by done.
    case_decide as Hkw.
    + rewrite <-Hkw. apply lookup_header_set_eq.
    + by rewrite lookup_header_set_ne.
Qed.

(** C5 as stated fails: on a dataset whose flip state never changes, a
    block whose header came with a [FLIPTIME] card writes that card. *)
Lemma C5_counterexample :
  (∀ k, ¬ flip_changes_at (df.flip <$> files_df sample.fm_steady) k) ∧
  ∃ w' file,
    Stack.terminate sample.stack_block_stale sample.dataset_world_run = (Ok (), w') ∧
    fs w' !! Stack.destination sample.stack_block_stale = Some file ∧
    primary_header file !! "FLIPTIME" = Some (VFloat 99).
Proof.
  split.
  - intros k Hk. destruct k as [|[|[|k]]]; [exact Hk|..];
      destruct Hk as (a & b & Ha & Hb & Hne); simplify_eq/=.
  - eexists _, _. split_and!; vm_compute; reflexivity.
Qed.

(** ** [Stack]: the accumulator *)

(** [initialize] on a fresh block leaves the accumulator unset and holds
    the manager and the reference image's header. *)
Lemma Stack_initialize_Ok dest ref ow fm w self w' :
  Stack.initialize (Stack.init dest ref ow) fm w = (Ok self, w') →
  w' = w ∧ Stack.stack self = None ∧ Stack.fits_manager self = Some fm ∧
  is_Some (Stack.stack_header self) ∧
  Stack.destination self = dest ∧ Stack.overwrite self = ow.
Proof.
  unfold Stack.initialize. intros (p & w1 & Hp & H)%M_bind_Ok.
  apply M_bind_Ok in H as (h & w2 & Hh & [= <- <-]).
  unfold lift in Hp. injection Hp as _ <-.
  unfold getheader in Hh. injection Hh as _ <-. by split_and!.
Qed.

Lemma same_config_refl s : is_Some (Stack.stack_header s) → same_config s s.
Proof. by intros ?; repeat split. Qed.

Lemma same_config_trans s1 s2 s3 :
  same_config s1 s2 → same_config s2 s3 → same_config s1 s3.
Proof.
  intros (? & ? & ? & ? & ?) (? & ? & ? & ? & ?). repeat split; congruence.
Qed.

(** The first image: the accumulator becomes the image's own array. *)
Lemma Stack_run_first self image w :
  Stack.stack self = None → is_Some (Stack.stack_header self) →
  reference_has_wcs self image →
  ∃ self', Stack.run self image w = (Ok self', w) ∧
           Stack.stack self' = Some (data image) ∧ same_config self self'.
Proof.
  intros Hst [h Hh] Hwcs. unfold Stack.run. rewrite Hst.
  unfold mbind, M_bind, mret, M_ret, lift.
  cbn [Stack.reference_image_path Stack.stack_header Stack.stack Stack.reference
       Stack.destination Stack.fits_manager Stack.overwrite].
  case_decide as Href.
  - destruct (Hwcs Href) as [wh Hwh]. rewrite Hh, Hwh. cbn [or_raise].
    eexists. split; [reflexivity|]. by repeat split.
  - eexists. split; [reflexivity|]. by repeat split; rewrite ?Hh.
Qed.

(** A later image: its array is added into the accumulator's array. *)
Lemma Stack_run_next self image w l acc d :
  Stack.stack self = Some l → heap w !! l = Some acc →
  heap w !! data image = Some d → shape acc = shape d →
  is_Some (Stack.stack_header self) → reference_has_wcs self image →
  ∃ self',
    Stack.run self image w =
      (Ok self', mk_world (fs w)
         (<[l := mk_ndarray (shape acc) (zip_with Qplus (flat acc) (flat d))]> (heap w))
         (clock w)) ∧
    Stack.stack self' = Some l ∧ same_config self self'.
Proof.
  intros Hst Hacc Hd Hsh [h Hh] Hwcs. unfold Stack.run. rewrite Hst.
  unfold mbind, M_bind, mret, M_ret, lift, load, store, elementwise.
  rewrite Hacc, Hd. cbn [or_raise]. rewrite decide_True by done.
  case_decide as Href.
  - destruct (Hwcs Href) as [wh Hwh]. rewrite Hh, Hwh. cbn [or_raise].
    eexists. split; [reflexivity|]. by repeat split.
  - eexists. split; [reflexivity|]. by repeat split; rewrite ?Hh.
Qed.

Lemma world_eta w : mk_world (fs w) (heap w) (clock w) = w.
Proof. by destruct w. Qed.

Lemma ndarray_eta {A} (a : ndarray A) : mk_ndarray (shape a) (flat a) = a.
Proof. by destruct a. Qed.

Lemma Forall2_heap_insert (heap : gmap nat (ndarray Q)) l x images arrays :
  l ∉ data <$> images →
  Forall2 (λ image a, heap !! data image = Some a) images arrays →
  Forall2 (λ image a, <[l := x]> heap !! data image = Some a) images arrays.
Proof.
  intros Hl Hall. induction Hall as [|image a images arrays Ha Hall IH]; [constructor|].
  rewrite fmap_cons in Hl. apply not_elem_of_cons in Hl as [Hne Hl].
  constructor; [by rewrite lookup_insert_ne | by apply IH].
Qed.

(** The images after the first: the accumulator's array ends as the
    element-wise sum of what it held and of their arrays; no other array
    of the store and no file changes. *)
Lemma Stack_run_all_next l images : ∀ arrays self w acc,
  Stack.stack self = Some l → heap w !! l = Some acc →
  l ∉ data <$> images →
  Forall2 (λ image a, heap w !! data image = Some a) images arrays →
  Forall (λ a, shape a = shape acc) arrays →
  is_Some (Stack.stack_header self) →
  (∀ image, image ∈ images → reference_has_wcs self image) →
  ∃ self',
    Stack.run_all self images w =
      (Ok self', mk_world (fs w)
         (<[l := mk_ndarray (shape acc)
                   (foldl (zip_with Qplus) (flat acc) (flat <$> arrays))]> (heap w))
         (clock w)) ∧
    Stack.stack self' = Some l ∧ same_config self self'.
Proof.
  induction images as [|image images IH]; intros arrays self w acc Hst Hacc Hl Hall Hsh Hh Hwcs.
  - apply Forall2_nil_inv_l in Hall as ->. exists self. split_and!; [|done|by apply same_config_refl].
    simpl. rewrite ndarray_eta, (insert_id _ _ _ Hacc), world_eta. done.
  - apply Forall2_cons_inv_l in Hall as (d & arrays' & Hd & Hall & ->).
    apply Forall_cons in Hsh as [Hshd Hsh].
    rewrite fmap_cons in Hl. apply not_elem_of_cons in Hl as [Hne Hl].
    destruct (Stack_run_next self image w l acc d) as (self1 & Hrun & Hst1 & Hcfg1);
      [done..|apply Hwcs; left|].
    set (acc1 := mk_ndarray (shape acc) (zip_with Qplus (flat acc) (flat d))).
    set (w1 := mk_world (fs w) (<[l := acc1]> (heap w)) (clock w)).
    destruct (IH arrays' self1 w1 acc1) as (self' & Hrest & Hst' & Hcfg').
    + done.
    + apply lookup_insert_eq.
    + done.
    + by apply Forall2_heap_insert.
    + done.
    + by destruct Hcfg1 as (_ & _ & _ & _ & ?).
    + intros image' Hin. unfold reference_has_wcs.
      destruct Hcfg1 as (_ & _ & _ & -> & _). apply Hwcs. by right.
    + exists self'. split_and!; [|done|by eapply same_config_trans].
      simpl. unfold mbind, M_bind. rewrite Hrun. fold acc1. fold w1. rewrite Hrest.
      subst w1. cbn [fs heap clock]. by rewrite insert_insert_eq.
Qed.

(** Folding element-wise addition over lists of one length adds up, at
    each position, the elements found there. *)
Lemma foldl_zip_with_lookup (ds : list (list Q)) : ∀ acc p x,
  Forall (λ d, length d = length acc) ds → acc !! p = Some x →
  ∃ y, foldl (zip_with Qplus) acc ds !! p = Some y ∧
       (y == x + StackStd.Qsum ((λ d, default 0 (d !! p)) <$> ds))%Q.
Proof.
  induction ds as [|d ds IH]; intros acc p x Hlen Hx.
  - exists x. split; [done|]. simpl. by rewrite Qplus_0_r.
  - apply Forall_cons in Hlen as [Hd Hlen].
    destruct (lookup_lt_is_Some_2 d p) as [dp Hdp].
    { rewrite Hd. by eapply lookup_lt_Some. }
    destruct (IH (zip_with Qplus acc d) p (x + dp)%Q) as (y & Hy & Heq).
    + eapply Forall_impl; [exact Hlen|]. intros d' Hd'. cbn beta in *.
      rewrite length_zip_with. lia.
    + rewrite lookup_zip_with, Hx. simpl. by rewrite Hdp.
    + exists y. split; [done|]. rewrite Heq. simpl. rewrite Hdp. simpl.
      by rewrite Qplus_assoc.
Qed.

(** In an array of shape [S], an index within [S] reads the flat element
    at its offset. *)
Lemma item_flat (a : ndarray Q) S idx r :
  shape a = S → ravel S idx = Some r → item a idx = default 0%Q (flat a !! r).
Proof. intros <- Hr. unfold item, getitem. by rewrite Hr. Qed.

(** C3. Run on every image of a dataset whose arrays have one shape and
    then terminated, the block writes the array whose element at each
    index is the sum of the images' elements there divided by their
    number. Floats are exact rationals here, so the tolerance is zero. *)
Theorem C3_stack_is_mean (self : Stack.t) fm images arrays S w :
  Stack.stack self = None → Stack.fits_manager self = Some fm →
  is_Some (Stack.stack_header self) →
  length images = length (files fm) → images ≠ [] →
  NoDup (data <$> images) →
  Forall2 (λ image a, heap w !! data image = Some a) images arrays →
  Forall (λ a, wf a ∧ shape a = S) arrays →
  (∀ image, image ∈ images → reference_has_wcs self image) →
  fs w !! Stack.destination self = None ∨ Stack.overwrite self = true →
  ∃ self' w1 w' st h,
    Stack.run_all self images w = (Ok self', w1) ∧
    Stack.terminate self' w1 = (Ok (), w') ∧
    fs w' !! Stack.destination self = Some (PrimaryHDU st h) ∧
    shape st = S ∧
    ∀ idx, Forall2 lt idx S →
           ∃ x, getitem st idx = Some x ∧ (x == mean_at arrays idx)%Q.
Proof.
  intros Hst Hfm Hh Hlen Hne Hnd Hall Hshape Hwcs Hdest.
  destruct images as [|im0 rest]; [done|].
  apply Forall2_cons_inv_l in Hall as (a0 & arest & Ha0 & Hall & ->).
  apply Forall_cons in Hshape as [[Hwf0 Hsh0] Hshape].
  rewrite fmap_cons in Hnd. apply NoDup_cons in Hnd as [Hl _].
  destruct (Stack_run_first self im0 w) as (self1 & Hrun1 & Hst1 & Hcfg1);
    [done | done | apply Hwcs; left |].
  destruct (Stack_run_all_next (data im0) rest arest self1 w a0)
    as (self' & Hrest & Hst' & Hcfg'); [done..| | | |].
  { eapply Forall_impl; [exact Hshape|]. intros a [_ ->]. done. }
  { by destruct Hcfg1 as (_ & _ & _ & _ & ?). }
  { intros image Hin. unfold reference_has_wcs.
    destruct Hcfg1 as (_ & _ & _ & -> & _). apply Hwcs. by right. }
  set (total := mk_ndarray (shape a0)
                  (foldl (zip_with Qplus) (flat a0) (flat <$> arest))) in *.
  set (w1 := mk_world (fs w) (<[data im0 := total]> (heap w)) (clock w)) in *.
  destruct (same_config_trans _ _ _ Hcfg1 Hcfg') as (Hfm' & Hd' & Ho' & _ & [h' Hh']).
  rewrite Hfm in Hfm'.
  exists self', w1, (mk_world (<[Stack.destination self :=
                        PrimaryHDU (divided fm total) (final_header fm (clock w1) h')]> (fs w1))
                     (<[data im0 := divided fm total]> (heap w1)) (clock w1)),
    (divided fm total), (final_header fm (clock w1) h').
  split_and!.
  - simpl. unfold mbind, M_bind. by rewrite Hrun1.
  - rewrite (Stack_terminate_eq self' fm (data im0) total h' w1);
      [|done|done|apply lookup_insert_eq|done].
    apply writeto_Ok. rewrite Hd', Ho'. split; [exact Hdest | reflexivity].
  - apply lookup_insert_eq.
  - done.
  - intros idx Hidx. apply ravel_Forall2 in Hidx as [r Hr].
    assert (Hrlt : r < length (flat a0)).
    { unfold wf in Hwf0. rewrite Hwf0, Hsh0. by eapply ravel_lt. }
    apply lookup_lt_is_Some_2 in Hrlt as [x0 Hx0].
    destruct (foldl_zip_with_lookup (flat <$> arest) (flat a0) r x0) as (y & Hy & Heq).
    { apply Forall_fmap. eapply Forall_impl; [exact Hshape|].
      intros a [Hwfa Hsha]. unfold wf in Hwfa, Hwf0. cbn. congruence. }
    { done. }
    assert (HN : length (files fm) = length (a0 :: arest)).
    { rewrite <-Hlen. cbn [length]. f_equal. by eapply Forall2_length. }
    exists (y / inject_Z (Z.of_nat (length (files fm))))%Q. split.
    + unfold getitem, divided, scalar_op. cbn [shape flat]. subst total.
      cbn [shape flat]. rewrite Hsh0, Hr. simpl.
      rewrite list_lookup_fmap, Hy. done.
    + unfold mean_at. rewrite HN.
      rewrite fmap_cons. unfold StackStd.Qsum at 1. cbn [foldr].
      fold (StackStd.Qsum ((λ a, item a idx) <$> arest)).
      rewrite (item_flat a0 S idx r Hsh0 Hr), Hx0. cbn [default].
      rewrite Heq. rewrite <-list_fmap_compose.
      replace ((λ a, item a idx) <$> arest)
        with (((λ d, default 0%Q (d !! r)) ∘ flat) <$> arest); [reflexivity|].
      apply Forall_fmap_ext. eapply Forall_impl; [exact Hshape|].
      intros a [_ Hsha]. cbn. by rewrite (item_flat a S idx r Hsha Hr).
Qed.

Lemma C3_stack_is_mean_witness :
  ∃ self' w1 w' st h,
    Stack.run_all sample.stack_block [sample.image_a; sample.image_b]
      sample.dataset_world = (Ok self', w1) ∧
    Stack.terminate self' w1 = (Ok (), w') ∧
    fs w' !! Stack.destination sample.stack_block = Some (PrimaryHDU st h) ∧
    shape st = [2; 2] ∧
    ∀ idx, Forall2 lt idx [2; 2] →
           ∃ x, getitem st idx = Some x ∧
                (x == mean_at [sample.plane_a; sample.plane_b] idx)%Q.
Proof.
  apply (C3_stack_is_mean sample.stack_block sample.fm
           [sample.image_a; sample.image_b] [sample.plane_a; sample.plane_b]
           [2; 2] sample.dataset_world).
  - reflexivity.
  - reflexivity.
  - by eexists.
  - reflexivity.
  - discriminate.
  - compute_done.
  - repeat constructor.
  - repeat constructor.
  - intros image Hin _.
    apply elem_of_cons in Hin as [->|Hin]; [by eexists|].
    apply elem_of_cons in Hin as [->|Hin]; [by eexists|].
    by apply elem_of_nil in Hin.
  - left. reflexivity.
Defined.

Lemma C5_fliptime_is_first_transition_witness :
  ∃ w' file,
    Stack.terminate sample.stack_block_run sample.dataset_world_run = (Ok (), w') ∧
    fs w' !! Stack.destination sample.stack_block_run = Some file ∧
    (∀ k, flip_changes_at (df.flip <$> files_df sample.fm) k →
          (∀ j, j < k → ¬ flip_changes_at (df.flip <$> files_df sample.fm) j) →
          ∃ jd_k, (df.jd <$> files_df sample.fm) !! k = Some jd_k ∧
                  primary_header file !! "FLIPTIME" = Some (VFloat jd_k)) ∧
    ((∀ k, ¬ flip_changes_at (df.flip <$> files_df sample.fm) k) →
     primary_header file !! "FLIPTIME"
     = if decide (normalize_keyword (keyword_image_type (telescope sample.fm)) = "FLIPTIME")
       then Some (VStr "Stack image") else sample.wcs_b !! "FLIPTIME").
Proof.
  apply (C5_fliptime_is_first_transition sample.stack_block_run sample.fm 0
           sample.plane_sum sample.wcs_b sample.dataset_world_run).
  - reflexivity.
  - reflexivity.
  - reflexivity.
  - reflexivity.
  - left. reflexivity.
Defined.

(** On the sample dataset the one change is at row 1 and the header
    written carries the Julian date of that row. *)
Example sample_fliptime :
  ∃ w' file,
    Stack.terminate sample.stack_block_run sample.dataset_world_run = (Ok (), w') ∧
    fs w' !! "stack.fits" = Some file ∧
    primary_data file = Some sample.plane_mean ∧
    primary_header file !! "FLIPTIME" = Some (VFloat 20).
Proof. eexists _, _. split_and!; vm_compute; reflexivity. Qed.

(** [initialize] on the sample dataset picks the second file as reference. *)
Example sample_initialize :
  Stack.initialize (Stack.init "stack.fits" (1 # 2) false) sample.fm sample.dataset_world
  = (Ok sample.stack_block, sample.dataset_world).
Proof. vm_compute. reflexivity. Qed.

(** C9 fails on the code. [run] binds the accumulator to the first image's
    own array, so the additions of the later runs and the division of
    [terminate] happen in that array: on the sample dataset the first
    image's array [1, 2, 3, 4] holds the sum after the runs and the mean
    after [terminate]. *)
Theorem C9_first_image_overwritten :
  heap sample.dataset_world !! data sample.image_a = Some sample.plane_a ∧
  Stack.run_all sample.stack_block [sample.image_a; sample.image_b] sample.dataset_world
    = (Ok sample.stack_block_run, sample.dataset_world_run) ∧
  heap sample.dataset_world_run !! data sample.image_a = Some sample.plane_sum ∧
  (∃ w', Stack.terminate sample.stack_block_run sample.dataset_world_run = (Ok (), w') ∧
         heap w' !! data sample.image_a = Some sample.plane_mean) ∧
  sample.plane_sum ≠ sample.plane_a ∧ sample.plane_mean ≠ sample.plane_a.
Proof.
  split_and!; [reflexivity | vm_compute; reflexivity | reflexivity | | done | done].
  eexists. split; vm_compute; reflexivity.
Qed.

(** ** Writing the destination *)

Lemma keeps_fs_ret {A} (a : A) : keeps_fs (mret a : M A).
Proof. by intros w r w' [= _ <-]. Qed.

Lemma keeps_fs_lift {A} (x : result A) : keeps_fs (lift x).
Proof. by intros w r w' [= _ <-]. Qed.

Lemma keeps_fs_load l : keeps_fs (load l).
Proof. by intros w r w' [= _ <-]. Qed.

Lemma keeps_fs_store l a : keeps_fs (store l a).
Proof. by intros w r w' [= _ <-]. Qed.

Lemma keeps_fs_now : keeps_fs now.
Proof. by intros w r w' [= _ <-]. Qed.

Lemma keeps_fs_getheader p : keeps_fs (getheader p).
Proof. by intros w r w' [= _ <-]. Qed.

Lemma keeps_fs_bind {A B} (m : M A) (f : A → M B) :
  keeps_fs m → (∀ a, keeps_fs (f a)) → keeps_fs (m ≫= f).
Proof.
  intros Hm Hf w r w'. unfold mbind, M_bind.
  destruct (m w) as [[a|e] w1] eqn:Hmw.
  - intros Hfa. rewrite (Hf a _ _ _ Hfa). by eapply Hm.
  - intros [= _ <-]. by eapply Hm.
Qed.

Lemma keeps_fs_mapM_load ls : keeps_fs (mapM load ls).
Proof.
  induction ls as [|l ls IH]; [apply keeps_fs_ret|].
  apply keeps_fs_bind; [apply keeps_fs_load|]. intros a.
  apply keeps_fs_bind; [apply IH|]. intros k. apply keeps_fs_ret.
Qed.

Lemma refuses_writeto file dest : refuses dest (writeto file dest false).
Proof.
  intros w r w' Hex. rewrite (writeto_conflict _ _ _ Hex). by intros [= <- <-].
Qed.


Create HintDb fs.
#[local] Hint Resolve keeps_fs_ret keeps_fs_lift keeps_fs_load keeps_fs_store
  keeps_fs_now keeps_fs_getheader keeps_fs_mapM_load refuses_writeto : fs.







(** ** [CleanCosmics] *)

Lemma length_select {A} (b : list A) (mask : list bool) :
  length mask = length b →
  length (select b mask) = length (filter (λ m, m = true) mask).
Proof.
  revert mask. induction b as [|y b IH]; intros [|m mask] Hlen; try done.
  injection Hlen as Hlen. simpl. rewrite filter_cons. destruct m.
  - rewrite decide_True by done. simpl. f_equal. by apply IH.
  - rewrite decide_False by done. by apply IH.
Qed.

(** Assigning through a mask the elements selected by the same mask from
    another list replaces exactly the masked positions, each by the
    element of the other list at that position. *)
Lemma assign_select_lookup {A} (a b : list A) (mask : list bool) p (x : A) (m : bool) (y : A) :
  a !! p = Some x → mask !! p = Some m → b !! p = Some y →
  assign a mask (select b mask) !! p = Some (if m then y else x).
Proof.
  revert b mask p. induction a as [|x0 a IH]; intros [|y0 b] [|m0 mask] p; try done.
  destruct p as [|p]; simpl.
  - intros [= ->] [= ->] [= ->]. by destruct m.
  - intros Hx Hm Hy. destruct m0; simpl; by apply IH.
Qed.

Lemma Qgtb_true x y : Qgtb x y = true ↔ (y < x)%Q.
Proof.
  unfold Qgtb. rewrite negb_true_iff, <-not_true_iff_false, Qle_bool_iff.
  split; [apply Qnot_le_lt | apply Qlt_not_le].
Qed.

(** C8. With the stack mean and the stack deviation loaded and all three
    arrays of one shape, [run] replaces in place each pixel of the image
    that exceeds mean + threshold * deviation by the mean at that pixel,
    and leaves every other pixel, every other array and the files as they
    were. *)
Theorem C8_clean_cosmics (self : CleanCosmics.t) image w d sd std :
  heap w !! data image = Some d →
  CleanCosmics.stack_data self = Some sd →
  CleanCosmics.std_stack self = Some std →
  wf d → wf sd → wf std → shape sd = shape d → shape std = shape d →
  ∃ w' d',
    CleanCosmics.run self image w = (Ok (), w') ∧
    heap w' !! data image = Some d' ∧ shape d' = shape d ∧
    (∀ l, l ≠ data image → heap w' !! l = heap w !! l) ∧ fs w' = fs w ∧
    ∀ idx x m s,
      getitem d idx = Some x → getitem sd idx = Some m → getitem std idx = Some s →
      ((m + s * CleanCosmics.threshold self < x)%Q → getitem d' idx = Some m) ∧
      (¬ (m + s * CleanCosmics.threshold self < x)%Q → getitem d' idx = Some x).
Proof.
  intros Hd Hsd Hstd Hwd Hwsd Hwstd Hshsd Hshstd.
  set (limit := zip_with Qplus (flat sd)
                  ((λ x, x * CleanCosmics.threshold self)%Q <$> flat std)).
  set (mask := zip_with Qgtb (flat d) limit).
  set (d' := mk_ndarray (shape d) (assign (flat d) mask (select (flat sd) mask))).
  assert (Hlen_limit : length limit = length (flat d)).
  { unfold limit, wf in *. rewrite length_zip_with, length_fmap. 
    rewrite Hwsd, Hwstd, Hwd, Hshsd, Hshstd. lia. }
  assert (Hlen_mask : length mask = length (flat d)).
  { unfold mask. rewrite length_zip_with. lia. }
  exists (mk_world (fs w) (<[data image := d']> (heap w)) (clock w)), d'.
  split_and!.
  - unfold CleanCosmics.run, mbind, M_bind, lift, load, store.
    rewrite Hd, Hstd, Hsd. cbn [or_raise].
    unfold elementwise, scalar_op. cbn [shape flat].
    rewrite decide_True by congruence. cbn [shape flat].
    rewrite decide_True by congruence.
    unfold getmask, setmask. cbn [shape flat].
    rewrite decide_True by congruence. rewrite decide_True by done.
    fold limit. fold mask. rewrite decide_True; [done|].
    apply length_select. unfold wf in *. rewrite Hlen_mask. congruence.
  - apply lookup_insert_eq.
  - done.
  - intros l Hl. cbn [heap]. by rewrite lookup_insert_ne.
  - done.
  - intros idx x m s. unfold getitem, d'. cbn [shape flat]. rewrite Hshsd, Hshstd.
    destruct (ravel (shape d) idx) as [r|]; [|done]. simpl.
    intros Hx Hm Hs.
    assert (Hlim : limit !! r = Some (m + s * CleanCosmics.threshold self)%Q).
    { unfold limit. rewrite lookup_zip_with, Hm. simpl.
      by rewrite list_lookup_fmap, Hs. }
    assert (Hmask : mask !! r = Some (Qgtb x (m + s * CleanCosmics.threshold self)%Q)).
    { unfold mask. rewrite lookup_zip_with, Hx. simpl. by rewrite Hlim. }
    rewrite (assign_select_lookup _ _ _ _ _ _ _ Hx Hmask Hm).
    split.
    + intros Hgt%Qgtb_true. by rewrite Hgt.
    + intros Hngt. destruct (Qgtb x (m + s * CleanCosmics.threshold self)%Q) eqn:Hg; [|done].
      by apply Qgtb_true in Hg.
Qed.

Lemma C8_clean_cosmics_witness :
  ∃ w' d',
    CleanCosmics.run sample.cosmics sample.image_spike sample.cosmics_world = (Ok (), w') ∧
    heap w' !! data sample.image_spike = Some d' ∧ shape d' = shape sample.plane_spike ∧
    (∀ l, l ≠ data sample.image_spike → heap w' !! l = heap sample.cosmics_world !! l) ∧
    fs w' = fs sample.cosmics_world ∧
    ∀ idx x m s,
      getitem sample.plane_spike idx = Some x → getitem sample.plane_a idx = Some m →
      getitem sample.plane_ones idx = Some s →
      ((m + s * CleanCosmics.threshold sample.cosmics < x)%Q → getitem d' idx = Some m) ∧
      (¬ (m + s * CleanCosmics.threshold sample.cosmics < x)%Q → getitem d' idx = Some x).
Proof.
  apply (C8_clean_cosmics sample.cosmics sample.image_spike sample.cosmics_world
           sample.plane_spike sample.plane_a sample.plane_ones).
  - reflexivity.
  - reflexivity.
  - reflexivity.
  - reflexivity.
  - reflexivity.
  - reflexivity.
  - reflexivity.
  - reflexivity.
Defined.

(** On the sample the spike is cut down to the stack mean and the other
    pixels stay. *)
Example sample_clean_cosmics :
  ∃ w', CleanCosmics.run sample.cosmics sample.image_spike sample.cosmics_world
          = (Ok (), w') ∧
        heap w' !! 0 = Some (mk_ndarray [2; 2] [1; 2; 3; 4]%Q).
Proof. eexists. split; vm_compute; reflexivity. Qed.

Lemma getdata_missing p w :
  fs w !! p = None → getdata p w = (Raise (FileNotFoundError p), w).
Proof. intros Hp. unfold getdata. by rewrite Hp. Qed.

Lemma keeps_fs_getdata p : keeps_fs (getdata p).
Proof. by intros w r w' [= _ <-]. Qed.

Lemma keeps_fs_fmap {A B} (f : A → B) (m : M A) : keeps_fs m → keeps_fs (f <$> m).
Proof.
  intros Hm w r w'. unfold fmap, M_fmap.
  destruct (m w) as [[a|e] w1] eqn:Hmw; intros [= _ <-]; by eapply Hm.
Qed.

(** C4 (as amended). [CleanCosmics.initialize] fails when the deviation
    map [test_std.fits] is missing from the dataset folder. A dataset
    without a registered stack does not make it fail: the stack is read
    under the [has_stack()] guard only, [initialize] succeeds and leaves
    [stack_data] as it was, and with [stack_data] unset every [run]
    raises [TypeError]. *)
Theorem C4_initialize_fails_without_std_only (self : CleanCosmics.t) fm w :
  (fs w !! path_join (folder fm) "test_std.fits" = None →
   ∃ e w', CleanCosmics.initialize self fm w = (Raise e, w')) ∧
  (has_stack fm = false → fs w !! path_join (folder fm) "test_std.fits" = None →
   CleanCosmics.initialize self fm w
   = (Raise (FileNotFoundError (path_join (folder fm) "test_std.fits")), w)) ∧
  (has_stack fm = false →
   ∀ std, getdata (path_join (folder fm) "test_std.fits") w = (Ok std, w) →
          CleanCosmics.initialize self fm w
          = (Ok (CleanCosmics.mk (CleanCosmics.stack_data self)
                   (CleanCosmics.threshold self) (Some std)), w)) ∧
  (∀ std image d, heap w !! data image = Some d →
     CleanCosmics.run (CleanCosmics.mk None (CleanCosmics.threshold self) (Some std))
       image w = (Raise TypeError, w)).
Proof.
  remember (path_join (folder fm) "test_std.fits") as std_path eqn:Hpath.
  split_and!.
  - intros Hnone. unfold CleanCosmics.initialize. rewrite <-Hpath.
    unfold mbind at 1, M_bind at 1.
    match goal with |- context [match ?m w with _ => _ end] =>
      assert (Hkeep : keeps_fs m);
      [|destruct (m w) as [[sd|e] w1] eqn:Hm; [|by eexists _, _]] end.
    { destruct (has_stack fm); [|apply keeps_fs_ret].
      apply keeps_fs_bind; [apply keeps_fs_lift|]. intros p.
      apply keeps_fs_fmap, keeps_fs_getdata. }
    unfold mbind, M_bind. rewrite getdata_missing; [by eexists _, _|].
    by rewrite (Hkeep _ _ _ Hm).
  - intros Hhas Hnone. unfold CleanCosmics.initialize. rewrite <-Hpath, Hhas.
    unfold mbind, M_bind, mret, M_ret. by rewrite (getdata_missing _ _ Hnone).
  - intros Hhas std Hget. unfold CleanCosmics.initialize. rewrite <-Hpath, Hhas.
    unfold mbind, M_bind, mret, M_ret. by rewrite Hget.
  - intros std image d Hd. unfold CleanCosmics.run, mbind, M_bind, lift, load.
    by rewrite Hd.
Qed.

Lemma C4_initialize_fails_without_std_only_witness :
  CleanCosmics.initialize (CleanCosmics.init 2) sample.fm sample.empty_world
  = (Raise (FileNotFoundError (path_join (folder sample.fm) "test_std.fits")),
     sample.empty_world).
Proof.
  destruct (C4_initialize_fails_without_std_only (CleanCosmics.init 2) sample.fm
              sample.empty_world) as (_ & Hmissing & _).
  apply Hmissing; reflexivity.
Defined.

(** C4 as stated fails: the sample dataset has no registered stack, the
    deviation map is in its folder, and [initialize] succeeds, leaving
    [stack_data] unset; the failure comes at the first [run]. *)
Lemma C4_counterexample :
  has_stack sample.fm = false ∧
  CleanCosmics.initialize (CleanCosmics.init 2) sample.fm sample.cosmics_world
  = (Ok (CleanCosmics.mk None 2 (Some sample.plane_ones)), sample.cosmics_world) ∧
  CleanCosmics.run (CleanCosmics.mk None 2 (Some sample.plane_ones))
    sample.image_spike sample.cosmics_world
  = (Raise TypeError, sample.cosmics_world).
Proof. split_and!; vm_compute; reflexivity. Qed.

(** * Further properties *)

(** ** [Stack.initialize]: the reference image *)

Lemma py_index_past {A} (l : list A) i :
  (Z.of_nat (length l) ≤ i)%Z → py_index l i = Raise IndexError.
Proof.
  intros Hi. unfold py_index.
  rewrite decide_False by lia. rewrite decide_False by lia. done.
Qed.

Lemma int_mult_ge (q : Q) (n : Z) :
  (1 <= q)%Q → (0 ≤ n)%Z → (n ≤ int (q * inject_Z n))%Z.
Proof.
  destruct q as [a b]. unfold Qle, int. simpl. intros Hq Hn.
  apply Z.quot_le_lower_bound; [lia|]. nia.
Qed.

(** X1. [Stack.initialize].
    A [reference] of 1 or more, the docstring's "last image" included,
    asks for a file past the end of the list: [initialize] raises
    [IndexError] on every dataset. *)
Theorem Stack_initialize_reference_past_end (self : Stack.t) fm w :
  (1 <= Stack.reference self)%Q →
  Stack.initialize self fm w = (Raise IndexError, w).
Proof.
  intros Href. unfold Stack.initialize, mbind, M_bind, lift.
  rewrite py_index_past; [done|]. apply int_mult_ge; [done | lia].
Qed.

Lemma Stack_initialize_reference_past_end_witness :
  Stack.initialize (Stack.init "stack.fits" 1 false) sample.fm sample.dataset_world
  = (Raise IndexError, sample.dataset_world).
Proof.
  apply (Stack_initialize_reference_past_end (Stack.init "stack.fits" 1 false)
           sample.fm sample.dataset_world).
  vm_compute. discriminate.
Defined.

Lemma int_nonneg_floor (x : Q) : (0 <= x)%Q → int x = Qfloor x.
Proof.
  destruct x as [a b]. unfold Qle, int, Qfloor. simpl. intros Ha.
  apply Z.quot_div_nonneg; lia.
Qed.

(** X2. [Stack.initialize].
    On an empty dataset [initialize] raises [IndexError] whatever the
    reference. *)
Theorem Stack_initialize_empty (self : Stack.t) fm w :
  files fm = [] → Stack.initialize self fm w = (Raise IndexError, w).
Proof.
  intros Hfiles. unfold Stack.initialize, mbind, M_bind, lift.
  rewrite Hfiles. rewrite py_index_past; [done|]. simpl.
  destruct (Stack.reference self) as [a b]. unfold int. simpl.
  rewrite Z.mul_0_r. by rewrite Z.quot_0_l.
Qed.

Lemma Stack_initialize_empty_witness :
  Stack.initialize (Stack.init "stack.fits" (1 # 2) false)
    (mk_FitsManager [] [] sample.tel "data" false []) sample.dataset_world
  = (Raise IndexError, sample.dataset_world).
Proof.
  apply (Stack_initialize_empty (Stack.init "stack.fits" (1 # 2) false)
           (mk_FitsManager [] [] sample.tel "data" false []) sample.dataset_world).
  reflexivity.
Defined.

(** X3. [Stack.initialize].
    With a reference in [0, 1) and a dataset that is not empty,
    [initialize] never fails on the index: it picks one of the files,
    reads that file's header, or raises [FileNotFoundError] for that file
    when it is not there, and changes nothing in the world. For the
    default reference 1/2 the file picked is number [n div 2] of the [n]
    files, and for the reference 0 it is the first one; for both the
    product of the code is exact. *)
Theorem Stack_initialize_in_range (self : Stack.t) fm w :
  (0 <= Stack.reference self)%Q → (Stack.reference self < 1)%Q →
  files fm ≠ [] →
  ∃ i p,
    files fm !! i = Some p ∧
    ((Stack.reference self == 1 # 2)%Q → i = length (files fm) / 2) ∧
    ((Stack.reference self == 0)%Q → i = 0) ∧
    Stack.initialize self fm w =
      match fs w !! p with
      | Some file =>
          (Ok (Stack.mk (Stack.reference self) (Stack.stack self)
                 (Some (primary_header file)) (Stack.destination self) (Some fm)
                 (Stack.overwrite self) (Some p)), w)
      | None => (Raise (FileNotFoundError p), w)
      end.
Proof.
  intros H0 H1 Hne.
  set (n := Z.of_nat (length (files fm))).
  set (x := (Stack.reference self * inject_Z n)%Q).
  assert (Hn : (0 < n)%Z) by (destruct (files fm); [done | subst n; simpl; lia]).
  assert (Hx0 : (0 <= x)%Q).
  { unfold x. apply Qmult_le_0_compat; [done|]. unfold Qle. simpl. lia. }
  assert (Hx1 : (x < inject_Z n)%Q).
  { unfold x. rewrite <-(Qmult_1_l (inject_Z n)) at 2.
    apply Qmult_lt_compat_r; [|done]. unfold Qlt. simpl. lia. }
  assert (Hi0 : (0 ≤ int x)%Z).
  { rewrite int_nonneg_floor by done. rewrite <-(Qfloor_Z 0).
    by apply Qfloor_resp_le. }
  assert (Hi1 : (int x < n)%Z).
  { rewrite int_nonneg_floor by done.
    pose proof (Qfloor_le x) as Hle.
    assert (Hlt : (inject_Z (Qfloor x) < inject_Z n)%Q) by (eapply Qle_lt_trans; done).
    by rewrite <-Zlt_Qlt in Hlt. }
  destruct (lookup_lt_is_Some_2 (files fm) (Z.to_nat (int x))) as [p Hp]; [lia|].
  exists (Z.to_nat (int x)), p. split_and!.
  - done.
  - intros Hhalf. rewrite int_nonneg_floor by done.
    assert (Hx : (x == Z.of_nat (length (files fm)) # 2)%Q).
    { unfold x. rewrite Hhalf. unfold Qeq, n. simpl. lia. }
    rewrite (Qfloor_comp _ _ Hx). unfold Qfloor.
    change (Z.pos 2) with (Z.of_nat 2). rewrite <-Nat2Z.inj_div.
    apply Nat2Z.id.
  - intros Hzero. rewrite int_nonneg_floor by done.
    assert (Hx : (x == 0)%Q) by (unfold x; rewrite Hzero; apply Qmult_0_l).
    by rewrite (Qfloor_comp _ _ Hx).
  - unfold Stack.initialize, mbind, M_bind, lift, getheader, mret, M_ret.
    fold n. fold x. unfold py_index. fold n.
    rewrite decide_True by lia. rewrite Hp. cbn [or_raise].
    by destruct (fs w !! p).
Qed.

Lemma Stack_initialize_in_range_witness :
  ∃ i p,
    files sample.fm !! i = Some p ∧
    (((1 # 2) == 1 # 2)%Q → i = length (files sample.fm) / 2) ∧
    (((1 # 2) == 0)%Q → i = 0) ∧
    Stack.initialize (Stack.init "stack.fits" (1 # 2) false) sample.fm sample.dataset_world =
      match fs sample.dataset_world !! p with
      | Some file =>
          (Ok (Stack.mk (1 # 2) None (Some (primary_header file)) "stack.fits"
                 (Some sample.fm) false (Some p)), sample.dataset_world)
      | None => (Raise (FileNotFoundError p), sample.dataset_world)
      end.
Proof.
  apply (Stack_initialize_in_range (Stack.init "stack.fits" (1 # 2) false)
           sample.fm sample.dataset_world).
  - vm_compute. discriminate.
  - reflexivity.
  - discriminate.
Defined.

(** ** [Stack.run]: the store and the header *)

(** X4. [Stack.run].
    Run over a dataset of distinct arrays of one shape, the block leaves
    the element-wise sum of all the arrays in the first image's own array
    and changes nothing else: the later images' arrays and the files are
    as before. *)
Theorem Stack_run_all_sums_into_first (self : Stack.t) im0 rest a0 arest S w :
  Stack.stack self = None → is_Some (Stack.stack_header self) →
  NoDup (data <$> im0 :: rest) →
  Forall2 (λ image a, heap w !! data image = Some a) (im0 :: rest) (a0 :: arest) →
  Forall (λ a, wf a ∧ shape a = S) (a0 :: arest) →
  (∀ image, image ∈ im0 :: rest → reference_has_wcs self image) →
  ∃ self' w1 total,
    Stack.run_all self (im0 :: rest) w = (Ok self', w1) ∧
    Stack.stack self' = Some (data im0) ∧
    fs w1 = fs w ∧ heap w1 = <[data im0 := total]> (heap w) ∧
    Forall2 (λ image a, heap w1 !! data image = Some a) rest arest ∧
    shape total = S ∧
    ∀ idx, Forall2 lt idx S →
      ∃ x, getitem total idx = Some x ∧
           (x == StackStd.Qsum ((λ a, item a idx) <$> a0 :: arest))%Q.
Proof.
  intros Hst Hh Hnd Hall Hshape Hwcs.
  apply Forall2_cons in Hall as [Ha0 Hall].
  apply Forall_cons in Hshape as [[Hwf0 Hsh0] Hshape].
  rewrite fmap_cons in Hnd. apply NoDup_cons in Hnd as [Hl _].
  destruct (Stack_run_first self im0 w) as (self1 & Hrun1 & Hst1 & Hcfg1);
    [done | done | apply Hwcs; left |].
  destruct (Stack_run_all_next (data im0) rest arest self1 w a0)
    as (self' & Hrest & Hst' & Hcfg'); [done..| | | |].
  { eapply Forall_impl; [exact Hshape|]. intros a [_ ->]. done. }
  { by destruct Hcfg1 as (_ & _ & _ & _ & ?). }
  { intros image Hin. unfold reference_has_wcs.
    destruct Hcfg1 as (_ & _ & _ & -> & _). apply Hwcs. by right. }
  eexists self', _, _. split_and!.
  - simpl. unfold mbind, M_bind. rewrite Hrun1. exact Hrest.
  - done.
  - done.
  - done.
  - by apply Forall2_heap_insert.
  - done.
  - intros idx Hidx. apply ravel_Forall2 in Hidx as [r Hr].
    assert (Hrlt : r < length (flat a0)).
    { unfold wf in Hwf0. rewrite Hwf0, Hsh0. by eapply ravel_lt. }
    apply lookup_lt_is_Some_2 in Hrlt as [x0 Hx0].
    destruct (foldl_zip_with_lookup (flat <$> arest) (flat a0) r x0) as (y & Hy & Heq).
    { apply Forall_fmap. eapply Forall_impl; [exact Hshape|].
      intros a [Hwfa Hsha]. unfold wf in Hwfa, Hwf0. cbn. congruence. }
    { done. }
    exists y. split.
    + unfold getitem. cbn [shape flat]. rewrite Hsh0, Hr. done.
    + rewrite fmap_cons. unfold StackStd.Qsum at 1. cbn [foldr].
      fold (StackStd.Qsum ((λ a, item a idx) <$> arest)).
      rewrite (item_flat a0 S idx r Hsh0 Hr), Hx0. cbn [default].
      rewrite Heq. rewrite <-list_fmap_compose.
      replace ((λ a, item a idx) <$> arest)
        with (((λ d, default 0%Q (d !! r)) ∘ flat) <$> arest); [reflexivity|].
      apply Forall_fmap_ext. eapply Forall_impl; [exact Hshape|].
      intros a [_ Hsha]. cbn. by rewrite (item_flat a S idx r Hsha Hr).
Qed.

Lemma Stack_run_all_sums_into_first_witness :
  ∃ self' w1 total,
    Stack.run_all sample.stack_block [sample.image_a; sample.image_b]
      sample.dataset_world = (Ok self', w1) ∧
    Stack.stack self' = Some (data sample.image_a) ∧
    fs w1 = fs sample.dataset_world ∧
    heap w1 = <[data sample.image_a := total]> (heap sample.dataset_world) ∧
    Forall2 (λ image a, heap w1 !! data image = Some a) [sample.image_b] [sample.plane_b] ∧
    shape total = [2; 2] ∧
    ∀ idx, Forall2 lt idx [2; 2] →
      ∃ x, getitem total idx = Some x ∧
           (x == StackStd.Qsum ((λ a, item a idx) <$> [sample.plane_a; sample.plane_b]))%Q.
Proof.
  apply (Stack_run_all_sums_into_first sample.stack_block sample.image_a
           [sample.image_b] sample.plane_a [sample.plane_b] [2; 2] sample.dataset_world).
  - reflexivity.
  - by eexists.
  - compute_done.
  - repeat constructor.
  - repeat constructor.
  - intros image Hin _.
    apply elem_of_cons in Hin as [->|Hin]; [by eexists|].
    apply elem_of_cons in Hin as [->|Hin]; [by eexists|].
    by apply elem_of_nil in Hin.
Defined.

(** X5. [Stack.run].
    A successful [run] changes the block's header only on the reference
    image, where the cards of the image's WCS are laid over it: a key of
    the WCS takes the WCS value, every other key keeps its own. The
    manager, the destination and the reference path stay. *)
Theorem Stack_run_header (self : Stack.t) image w self' w' :
  Stack.run self image w = (Ok self', w') →
  (Some (path image) = Stack.reference_image_path self →
   ∃ h wh, Stack.stack_header self = Some h ∧ wcs image = Some wh ∧
           Stack.stack_header self' = Some (wh ∪ h) ∧
           ∀ k, (wh ∪ h) !! k = match wh !! k with Some v => Some v | None => h !! k end) ∧
  (Some (path image) ≠ Stack.reference_image_path self →
   Stack.stack_header self' = Stack.stack_header self) ∧
  Stack.fits_manager self' = Stack.fits_manager self ∧
  Stack.destination self' = Stack.destination self ∧
  Stack.overwrite self' = Stack.overwrite self ∧
  Stack.reference_image_path self' = Stack.reference_image_path self.
Proof.
  unfold Stack.run. intros (self1 & w1 & Hacc & Hhdr)%M_bind_Ok.
  assert (Hsame : Stack.stack_header self1 = Stack.stack_header self ∧
                  Stack.fits_manager self1 = Stack.fits_manager self ∧
                  Stack.destination self1 = Stack.destination self ∧
                  Stack.overwrite self1 = Stack.overwrite self ∧
                  Stack.reference_image_path self1 = Stack.reference_image_path self).
  { destruct (Stack.stack self) as [l|].
    - apply M_bind_Ok in Hacc as (? & ? & _ & Hacc).
      apply M_bind_Ok in Hacc as (? & ? & _ & Hacc).
      apply M_bind_Ok in Hacc as (? & ? & _ & Hacc).
      apply M_bind_Ok in Hacc as (? & ? & _ & [= <- _]). done.
    - injection Hacc as <- _. done. }
  destruct Hsame as (Hh1 & Hfm1 & Hd1 & Ho1 & Hr1).
  rewrite Hr1 in Hhdr. case_decide as Href.
  - apply M_bind_Ok in Hhdr as (h & ? & Hh & Hhdr).
    apply M_bind_Ok in Hhdr as (wh & ? & Hwh & [= <- _]).
    unfold lift in Hh, Hwh. injection Hh as Hh _. injection Hwh as Hwh _.
    rewrite Hh1 in Hh.
    destruct (Stack.stack_header self) as [h'|]; [|done]. injection Hh as ->.
    destruct (wcs image) as [wh'|]; [|done]. injection Hwh as ->.
    split_and!; [|done..]. intros _. exists h, wh. split_and!; [done..|].
    intros k. rewrite lookup_union. by destruct (wh !! k), (h !! k).
  - injection Hhdr as <- _. split_and!; [done | by rewrite Hh1 | done..].
Qed.

Lemma Stack_run_header_witness :
  (Some (path sample.image_a) = Stack.reference_image_path sample.stack_block →
   ∃ h wh, Stack.stack_header sample.stack_block = Some h ∧
           wcs sample.image_a = Some wh ∧
           Stack.stack_header
             (Stack.mk (1 # 2) (Some 0) (Some ∅) "stack.fits" (Some sample.fm) false
                (Some "b.fits")) = Some (wh ∪ h) ∧
           ∀ k, (wh ∪ h) !! k = match wh !! k with Some v => Some v | None => h !! k end) ∧
  (Some (path sample.image_a) ≠ Stack.reference_image_path sample.stack_block →
   Stack.stack_header
     (Stack.mk (1 # 2) (Some 0) (Some ∅) "stack.fits" (Some sample.fm) false
        (Some "b.fits")) = Stack.stack_header sample.stack_block) ∧
  Stack.fits_manager
    (Stack.mk (1 # 2) (Some 0) (Some ∅) "stack.fits" (Some sample.fm) false
       (Some "b.fits")) = Stack.fits_manager sample.stack_block ∧
  Stack.destination
    (Stack.mk (1 # 2) (Some 0) (Some ∅) "stack.fits" (Some sample.fm) false
       (Some "b.fits")) = Stack.destination sample.stack_block ∧
  Stack.overwrite
    (Stack.mk (1 # 2) (Some 0) (Some ∅) "stack.fits" (Some sample.fm) false
       (Some "b.fits")) = Stack.overwrite sample.stack_block ∧
  Stack.reference_image_path
    (Stack.mk (1 # 2) (Some 0) (Some ∅) "stack.fits" (Some sample.fm) false
       (Some "b.fits")) = Stack.reference_image_path sample.stack_block.
Proof.
  apply (Stack_run_header sample.stack_block sample.image_a sample.dataset_world
           _ sample.dataset_world).
  vm_compute. reflexivity.
Defined.

(** X6. [Stack.run].
    On the reference image, an image without WCS makes [run] raise
    [AttributeError] after the addition: the image's array has already
    gone into the accumulator's array. *)
Theorem Stack_run_reference_without_wcs (self : Stack.t) image w l acc d :
  Stack.stack self = Some l → heap w !! l = Some acc →
  heap w !! data image = Some d → shape acc = shape d →
  is_Some (Stack.stack_header self) →
  Some (path image) = Stack.reference_image_path self → wcs image = None →
  Stack.run self image w =
    (Raise AttributeError,
     mk_world (fs w)
       (<[l := mk_ndarray (shape acc) (zip_with Qplus (flat acc) (flat d))]> (heap w))
       (clock w)).
Proof.
  intros Hst Hacc Hd Hsh [h Hh] Href Hwcs. unfold Stack.run. rewrite Hst.
  unfold mbind, M_bind, mret, M_ret, lift, load, store, elementwise.
  rewrite Hacc, Hd. cbn [or_raise]. rewrite decide_True by done.
  rewrite decide_True by done. rewrite Hh, Hwcs. done.
Qed.

Lemma Stack_run_reference_without_wcs_witness :
  Stack.run (Stack.mk (1 # 2) (Some 0) (Some ∅) "stack.fits" (Some sample.fm) false
               (Some "b.fits"))
    (mk_Image "b.fits" 1 ∅ None sample.plane_a sample.plane_a sample.stars 0%Q ∅)
    sample.dataset_world =
    (Raise AttributeError,
     mk_world (fs sample.dataset_world)
       (<[0 := mk_ndarray (shape sample.plane_a)
                 (zip_with Qplus (flat sample.plane_a) (flat sample.plane_b))]>
          (heap sample.dataset_world))
       (clock sample.dataset_world)).
Proof.
  apply (Stack_run_reference_without_wcs
           (Stack.mk (1 # 2) (Some 0) (Some ∅) "stack.fits" (Some sample.fm) false
              (Some "b.fits"))
           (mk_Image "b.fits" 1 ∅ None sample.plane_a sample.plane_a sample.stars 0%Q ∅)
           sample.dataset_world 0 sample.plane_a sample.plane_b).
  - reflexivity.
  - reflexivity.
  - reflexivity.
  - reflexivity.
  - by eexists.
  - reflexivity.
  - reflexivity.
Defined.

(** ** [Stack.terminate]: the rows of change and the header *)

Lemma changing_flip_idxs_complete_from s (l : list string) :
  let idxs := fst <$> filter (λ p, (p.2).1 ≠ (p.2).2)
                (zip (seq s (length (zip l (drop 1 l)))) (zip l (drop 1 l))) in
  (∀ i, flip_changes_at l (S i) → s + i ∈ idxs) ∧
  Forall (λ k, s ≤ k) idxs ∧ StronglySorted lt idxs.
Proof.
  revert s. induction l as [|a l IH]; intros s; [|destruct l as [|b l]].
  - split_and!; [by intros i (? & ? & ? & _) | constructor | constructor].
  - split_and!; [|constructor|constructor].
    intros i (x & y & Hx & Hy & _). by destruct i.
  - intros idxs. subst idxs. rewrite changing_flip_idxs_from.
    destruct (IH (S s)) as (IH1 & IH2 & IH3). split_and!.
    + intros [|i] Hi.
      * destruct Hi as (x & y & [= <-] & [= <-] & Hne).
        rewrite decide_True by done. rewrite Nat.add_0_r. left.
      * apply elem_of_app. right. replace (s + S i) with (S s + i) by lia.
        apply IH1. destruct Hi as (x & y & ? & ? & ?). by exists x, y.
    + apply Forall_app. split; [case_decide; repeat constructor|].
      eapply Forall_impl; [exact IH2|]. intros k Hk. cbn beta in Hk. lia.
    + case_decide; [|done]. simpl. constructor; [done|].
      eapply Forall_impl; [exact IH2|]. intros k Hk. cbn beta in Hk. lia.
Qed.

(** X7. [Stack.terminate].
    The rows [terminate] collects are exactly the rows at which the flip
    state differs from the row before, in increasing order. *)
Theorem changing_flip_idxs_exact (flip : list string) :
  StronglySorted lt (Stack.changing_flip_idxs flip) ∧
  ∀ k, k ∈ Stack.changing_flip_idxs flip ↔ flip_changes_at flip k.
Proof.
  destruct (changing_flip_idxs_complete_from 1 flip) as (Hall & _ & Hsorted).
  split; [exact Hsorted|]. intros k. split; [apply changing_flip_idxs_elem|].
  destruct k as [|i]; [done|]. intros Hi. exact (Hall i Hi).
Qed.

(** X8. [Stack.terminate].
    What a ready block's [terminate] writes: the accumulator divided, and
    a stripped copy of the block's header with [REDDATE] and [NIMAGES]
    stamped and the image type set to "Stack image". The [BZERO] = 0 that
    [terminate] sets on the block's header does not reach the file: the
    HDU is built from the header without its scaling cards, so the file
    has neither [BZERO] nor [BSCALE]. Every other card that is no keyword
    of the layout is as it was. The accumulator's array in the store is
    the divided one afterwards. *)
Theorem Stack_terminate_stamps (self : Stack.t) fm l acc h0 w w' :
  Stack.fits_manager self = Some fm → Stack.stack self = Some l →
  heap w !! l = Some acc → Stack.stack_header self = Some h0 →
  Stack.terminate self w = (Ok (), w') →
  ∃ h,
    fs w' !! Stack.destination self = Some (mk_HDUList h (Some (divided fm acc)) []) ∧
    heap w' = <[l := divided fm acc]> (heap w) ∧
    h !! "BZERO" = None ∧ h !! "BSCALE" = None ∧
    h !! "REDDATE" = Some (VStr (clock w)) ∧
    h !! "NIMAGES" = Some (VInt (Z.of_nat (length (files fm)))) ∧
    (layout_keyword (normalize_keyword (keyword_image_type (telescope fm))) = false →
     normalize_keyword (keyword_image_type (telescope fm))
       ∉ ["REDDATE"; "NIMAGES"; "FLIPTIME"] →
     h !! normalize_keyword (keyword_image_type (telescope fm)) = Some (VStr "Stack image")) ∧
    ∀ k, layout_keyword k = false →
         k ∉ [normalize_keyword (keyword_image_type (telescope fm));
              "REDDATE"; "NIMAGES"; "FLIPTIME"] →
         h !! k = h0 !! k.
Proof.
  intros Hfm Hl Hacc Hh. rewrite (Stack_terminate_eq _ _ _ _ _ _ Hfm Hl Hacc Hh).
  intros [_ ->]%writeto_Ok. exists (strip (final_header fm (clock w) h0)).
  assert (Hfinal : ∀ k, k ≠ "FLIPTIME" →
            final_header fm (clock w) h0 !! k = stamped fm (clock w) h0 !! k).
  { intros k Hk. unfold final_header.
    destruct (Stack.changing_flip_idxs (df.flip <$> files_df fm)); [done|].
    by rewrite lookup_header_set_ne. }
  split_and!.
  - apply lookup_insert_eq.
  - done.
  - apply lookup_strip_fixed. compute_done.
  - apply lookup_strip_fixed. compute_done.
  - rewrite lookup_strip_other by reflexivity. rewrite Hfinal by done. unfold stamped.
    rewrite lookup_header_set_ne by done. apply (lookup_header_set_eq "REDDATE").
  - rewrite lookup_strip_other by reflexivity. rewrite Hfinal by done. unfold stamped.
    apply (lookup_header_set_eq "NIMAGES").
  - intros Hlayout Hkw. rewrite !not_elem_of_cons in Hkw.
    destruct Hkw as (? & ? & ? & _).
    rewrite lookup_strip_other by done. rewrite Hfinal by done. unfold stamped.
    rewrite (lookup_header_set_ne "NIMAGES") by done.
    rewrite (lookup_header_set_ne "REDDATE") by done.
    rewrite (lookup_header_set_ne "BZERO"); [apply lookup_header_set_eq|].
    intros Heq. by rewrite <-Heq in Hlayout.
  - intros k Hlayout Hk. rewrite !not_elem_of_cons in Hk.
    destruct Hk as (? & ? & ? & ? & _).
    rewrite lookup_strip_other by done. rewrite Hfinal by done. unfold stamped.
    rewrite (lookup_header_set_ne "NIMAGES") by done.
    rewrite (lookup_header_set_ne "REDDATE") by done.
    rewrite (lookup_header_set_ne "BZERO"); [by rewrite lookup_header_set_ne|].
    intros Heq. by rewrite <-Heq in Hlayout.
Qed.

Lemma Stack_terminate_stamps_witness :
  ∃ h,
    fs (Stack.terminate sample.stack_block_scaled sample.dataset_world_run).2
      !! "stack.fits"
      = Some (mk_HDUList h (Some (divided sample.fm sample.plane_sum)) []) ∧
    h !! "BZERO" = None ∧ h !! "BSCALE" = None ∧
    h !! "REDDATE" = Some (VStr "2020-01-01T00:00:00") ∧
    h !! "NIMAGES" = Some (VInt 2) ∧
    h !! "IMAGETYP" = Some (VStr "Stack image") ∧
    h !! "OBJECT" = Some (VStr "star").
Proof.
  destruct (Stack_terminate_stamps sample.stack_block_scaled sample.fm 0 sample.plane_sum
              sample.scaled_header sample.dataset_world_run
              (Stack.terminate sample.stack_block_scaled sample.dataset_world_run).2)
    as (h & Hfile & _ & Hbzero & Hbscale & Hreddate & Hnimages & Htype & Hother).
  - reflexivity.
  - reflexivity.
  - reflexivity.
  - reflexivity.
  - vm_compute. reflexivity.
  - exists h. split; [exact Hfile|]. split; [exact Hbzero|]. split; [exact Hbscale|].
    split; [exact Hreddate|]. split; [exact Hnimages|]. split.
    + apply Htype; [reflexivity | compute_done].
    + rewrite Hother; [reflexivity | reflexivity | compute_done].
Defined.

(** ** [SavePhots.terminate]: edge cases and the sections of the file *)

(** X9. [SavePhots.terminate].
    Without a collected image [terminate] stops on [self.images[0]]: the
    file is not assembled and nothing is written. *)
Theorem SavePhots_terminate_no_images gf dn (self : SavePhots.t) :
  SavePhots.images self = [] →
  (∀ h, SavePhots.hdu_list self h = Raise IndexError) ∧
  (∀ w h, SavePhots.primary_hdu gf dn self w = (Ok h, w) →
          SavePhots.terminate gf dn self w = (Raise IndexError, w)) ∧
  (∀ w w', SavePhots.terminate gf dn self w ≠ (Ok (), w')).
Proof.
  intros Himages.
  assert (Hh : ∀ h, SavePhots.hdu_list self h = Raise IndexError).
  { intros h. unfold SavePhots.hdu_list, SavePhots.collect. by rewrite Himages. }
  split_and!; [done| |].
  - intros w h Hprim. by apply (SavePhots_terminate_Raise _ _ _ _ h).
  - intros w w' (h & file & _ & Hfile & _)%SavePhots_terminate_Ok.
    by rewrite Hh in Hfile.
Qed.

Lemma SavePhots_terminate_no_images_witness :
  (∀ h, SavePhots.hdu_list (SavePhots.init "out.phots" false) h = Raise IndexError) ∧
  (∀ w h, SavePhots.primary_hdu sample.get_files sample.dirname
            (SavePhots.init "out.phots" false) w = (Ok h, w) →
          SavePhots.terminate sample.get_files sample.dirname
            (SavePhots.init "out.phots" false) w = (Raise IndexError, w)) ∧
  (∀ w w', SavePhots.terminate sample.get_files sample.dirname
             (SavePhots.init "out.phots" false) w ≠ (Ok (), w')).
Proof.
  apply (SavePhots_terminate_no_images sample.get_files sample.dirname
           (SavePhots.init "out.phots" false)).
  reflexivity.
Defined.

Lemma length_filter_ne_seq s a n :
  length (filter (λ k, k ≠ s) (seq a n)) = if decide (a ≤ s < a + n) then n - 1 else n.
Proof.
  revert a. induction n as [|n IH]; intros a; [by case_decide|].
  simpl. rewrite filter_cons. destruct (decide (a ≠ s)) as [Hne|Heq].
  - simpl. rewrite IH. repeat case_decide; lia.
  - apply dec_stable in Heq as ->. rewrite IH.
    rewrite decide_False by lia. rewrite decide_True by lia. lia.
Qed.

(** [moveaxis] keeps the number of axes. *)
Lemma moveaxis_ndim {A} (a b : ndarray A) s d :
  moveaxis a s d = Ok b → ndim b = ndim a ∧ s < ndim a ∧ d < ndim a.
Proof.
  unfold moveaxis. case_decide as Hs; [done|]. case_decide as Hd; [done|].
  intros [= <-]. split; [|lia]. unfold ndim at 1, transpose. cbn [shape].
  rewrite length_fmap. unfold list_insert_at.
  rewrite length_app, length_take. cbn [length]. rewrite length_drop.
  rewrite length_filter_ne_seq. rewrite decide_True by lia. lia.
Qed.

(** X10. [SavePhots.terminate].
    The reordering needs three axes at least, in the flux array and in
    the error array: with fewer it raises [AxisError]. When it returns,
    the arrays have as many axes as before, so the two-axis test that
    follows the moves never holds and no axis is ever added. *)
Theorem backward_compatibility_axes (f e : ndarray Q) :
  (ndim f < 3 ∨ ndim e < 3 →
   ∃ axis nd, SavePhots.backward_compatibility f e = Raise (AxisError axis nd)) ∧
  (∀ out eout, SavePhots.backward_compatibility f e = Ok (out, eout) →
     3 ≤ ndim f ∧ 3 ≤ ndim e ∧ ndim out = ndim f ∧ ndim eout = ndim e).
Proof.
  assert (Hraise : ∀ (a : ndarray Q) s d err, moveaxis a s d = Raise err →
            ∃ axis, err = AxisError axis (ndim a)).
  { intros a s d err. unfold moveaxis.
    repeat case_decide; intros [= <-]; by eexists. }
  unfold SavePhots.backward_compatibility.
  destruct (moveaxis f 1 0) as [f1|err] eqn:Hf1; simpl.
  2:{ destruct (Hraise _ _ _ _ Hf1) as [axis ->]. split; [by eexists _, _ | done]. }
  destruct (moveaxis e 1 0) as [e1|err] eqn:He1; simpl.
  2:{ destruct (Hraise _ _ _ _ He1) as [axis ->]. split; [by eexists _, _ | done]. }
  destruct (moveaxis f1 2 1) as [f2|err] eqn:Hf2; simpl.
  2:{ destruct (Hraise _ _ _ _ Hf2) as [axis ->]. split; [by eexists _, _ | done]. }
  destruct (moveaxis e1 2 1) as [e2|err] eqn:He2; simpl.
  2:{ destruct (Hraise _ _ _ _ He2) as [axis ->]. split; [by eexists _, _ | done]. }
  apply moveaxis_ndim in Hf1 as (Hf1 & _ & _), He1 as (He1 & _ & _).
  apply moveaxis_ndim in Hf2 as (Hf2 & Hf2' & _), He2 as (He2 & He2' & _).
  rewrite decide_False by (unfold ndim in *; lia). split.
  - intros [?|?]; lia.
  - intros out eout [= <- <-]. lia.
Qed.

Lemma backward_compatibility_axes_witness :
  ∃ axis nd,
    SavePhots.backward_compatibility sample.collected_1ap sample.collected_1ap
    = Raise (AxisError axis nd).
Proof.
  destruct (backward_compatibility_axes sample.collected_1ap sample.collected_1ap)
    as [Hfew _].
  apply Hfew. left. vm_compute. lia.
Defined.

Lemma column_Ok keyword images col :
  SavePhots.column keyword images = Ok col →
  Forall2 (λ image v, header_get (header image) keyword = Some v) images col.
Proof.
  unfold SavePhots.column. revert col.
  induction images as [|image images IH]; intros col; simpl.
  - intros [= <-]. constructor.
  - destruct (header_get (header image) keyword) as [v|] eqn:Hv; simpl; [|done].
    destruct (mapM _ images) as [vs|] eqn:Hrest; simpl; [|done].
    intros [= <-]. constructor; [done | by apply IH].
Qed.

(** The column of a keyword found in the first header, whatever other
    keyword of the same lower-case name the loop meets: keywords that
    differ in letter case only read the same cards. *)
Lemma time_series_columns images first keywords : ∀ data0 data k,
  images !! 0 = Some first →
  SavePhots.time_series images keywords data0 = Ok data →
  (k ∈ keywords ∧ is_Some (header_get (header first) k)) ∨
  (∃ col0, data0 !! lower k = Some col0 ∧
           Forall2 (λ image v, header_get (header image) k = Some v) images col0) →
  ∃ col, data !! lower k = Some col ∧
         Forall2 (λ image v, header_get (header image) k = Some v) images col.
Proof.
  induction keywords as [|kw keywords IH]; intros data0 data k Hfirst Hts Hk.
  - injection Hts as <-. destruct Hk as [[Hk _]|Hk]; [by apply elem_of_nil in Hk | done].
  - simpl in Hts. rewrite Hfirst in Hts. simpl in Hts.
    case_decide as Hkw.
    + apply bind_Ok in Hts as (col & Hcol & Hts).
      apply (IH _ _ k Hfirst Hts).
      destruct (decide (lower kw = lower k)) as [Hlow|Hlow].
      * right. exists col. rewrite Hlow. split; [apply lookup_insert_eq|].
        apply column_Ok in Hcol. eapply Forall2_impl; [exact Hcol|].
        intros image v Hv. cbn beta in *.
        by rewrite <-(header_get_lower _ _ _ Hlow).
      * destruct Hk as [[Hk Hh]|(col0 & Hcol0 & Hall)].
        -- left. apply elem_of_cons in Hk as [->|Hk]; [done|]. by split.
        -- right. exists col0. by rewrite lookup_insert_ne.
    + apply (IH _ _ k Hfirst Hts).
      destruct Hk as [[Hk Hh]|Hk]; [|by right].
      left. apply elem_of_cons in Hk as [->|Hk]; [done|]. by split.
Qed.

Lemma extra_hdus_names images first keys : ∀ hl hl',
  images !! 0 = Some first →
  SavePhots.extra_hdus images keys hl = Ok hl' →
  ∃ extras, hl' = hl ++ extras ∧
            hdu_name <$> extras
            = (λ key, upper (replace "_" " " key))
                <$> filter (λ key, is_Some (attrs first !! key)) keys.
Proof.
  induction keys as [|key keys IH]; intros hl hl' Hfirst; simpl.
  - intros [= <-]. exists []. by rewrite app_nil_r.
  - rewrite Hfirst. simpl. rewrite filter_cons. case_decide as Hkey.
    + intros (_data & _ & Hx)%bind_Ok.
      apply bind_Ok in Hx as (arr & _ & Hx).
      destruct (IH _ _ Hfirst Hx) as (extras & -> & Hnames).
      exists (ImageHDU (replace "_" " " key) arr :: extras). split.
      * by rewrite <-app_assoc.
      * rewrite !fmap_cons. by rewrite Hnames.
    + by apply IH.
Qed.

(** X11. [SavePhots.terminate].
    The sections of the file [terminate] writes: no primary array; the
    flux and error arrays, the star coordinates of the first collected
    image and the table, in this order; then one array per extra
    attribute found on the first image, in the order [apertures_area],
    [annulus_area]. The names the file shows are in upper case:
    [PHOTOMETRY], [PHOTOMETRY ERRORS], [STARS], [TIME SERIES], and for the
    extra sections the attribute's name with a space for the underscore. *)
Theorem SavePhots_file_sections gf dn (self : SavePhots.t) first w w' :
  SavePhots.images self !! 0 = Some first →
  SavePhots.terminate gf dn self w = (Ok (), w') →
  ∃ file out eout data extras,
    fs w' !! SavePhots.destination self = Some file ∧
    primary_data file = None ∧
    extensions file =
      [ ImageHDU "photometry" out; ImageHDU "photometry errors" eout;
        ImageHDU "stars" (stars_coords first); BinTableHDU "time series" data ]
      ++ extras ∧
    hdu_name <$> extensions file
    = [ "PHOTOMETRY"; "PHOTOMETRY ERRORS"; "STARS"; "TIME SERIES" ] ++
      ((λ key, upper (replace "_" " " key))
         <$> filter (λ key, is_Some (attrs first !! key))
               ["apertures_area"; "annulus_area"]).
Proof.
  intros Hfirst (h & file & _ & Hfile & _ & ->)%SavePhots_terminate_Ok.
  apply hdu_list_Ok in Hfile
    as (out & eout & stars & tel & data & hdus & Hc & _ & _ & Hx & ->).
  destruct (extra_hdus_names _ _ _ _ _ Hfirst Hx) as (extras & -> & Hnames).
  assert (stars = stars_coords first) as ->.
  { unfold SavePhots.collect in Hc.
    apply bind_Ok in Hc as (a1 & _ & Hc). apply bind_Ok in Hc as (a2 & _ & Hc).
    apply bind_Ok in Hc as (st & Hst & Hc). rewrite Hfirst in Hst.
    injection Hst as <-.
    apply bind_Ok in Hc as ([o eo] & _ & [= _ _ <-]). done. }
  eexists _, out, eout, data, extras.
  split_and!; [apply lookup_insert_eq|done|done|].
  cbn [extensions]. rewrite fmap_app, Hnames. reflexivity.
Qed.

Lemma SavePhots_file_sections_witness :
  ∃ file,
    fs sample.pair_world !! SavePhots.destination sample.phots_pair = Some file ∧
    primary_data file = None ∧
    hdu_name <$> extensions file
    = [ "PHOTOMETRY"; "PHOTOMETRY ERRORS"; "STARS"; "TIME SERIES"; "APERTURES AREA" ].
Proof.
  destruct (SavePhots_file_sections sample.get_files sample.dirname sample.phots_pair
              (sample.frame "a.fits" 0 sample.pair_header_a)
              sample.stack_world sample.pair_world)
    as (file & out & eout & data & extras & Hfile & Hprimary & _ & Hnames).
  - reflexivity.
  - vm_compute. reflexivity.
  - exists file. split; [exact Hfile|]. split; [exact Hprimary|].
    rewrite Hnames. reflexivity.
Defined.

(** X12. [SavePhots.terminate].
    The column written for a recognized keyword found in the first header
    holds that keyword's value in each collected image, one per image in
    the order of collection, under the keyword's lower-cased name. *)
Theorem SavePhots_columns gf dn (self : SavePhots.t) tel first w w' k :
  SavePhots.telescope self = Some tel →
  SavePhots.images self !! 0 = Some first →
  k ∈ SavePhots.keywords tel → is_Some (header_get (header first) k) →
  SavePhots.terminate gf dn self w = (Ok (), w') →
  ∃ file data col,
    fs w' !! SavePhots.destination self = Some file ∧
    extensions file !! 3 = Some (BinTableHDU "time series" data) ∧
    data !! lower k = Some col ∧
    Forall2 (λ image v, header_get (header image) k = Some v) (SavePhots.images self) col.
Proof.
  intros Htel Hfirst Hk Hh (h & file & _ & Hfile & _ & ->)%SavePhots_terminate_Ok.
  apply hdu_list_Ok in Hfile
    as (out & eout & stars & tel' & data & hdus & _ & Htel' & Hts & Hx & ->).
  rewrite Htel in Htel'. injection Htel' as <-.
  apply extra_hdus_prefix in Hx as [extra ->].
  destruct (time_series_columns _ _ _ _ _ k Hfirst Hts) as (col & Hcol & Hall);
    [by left|].
  eexists _, data, col. split_and!; [apply lookup_insert_eq|done..].
Qed.

Lemma SavePhots_columns_witness :
  ∃ file data,
    fs sample.pair_world !! SavePhots.destination sample.phots_pair = Some file ∧
    extensions file !! 3 = Some (BinTableHDU "time series" data) ∧
    data !! "jd" = Some [VFloat 2; VFloat 3].
Proof.
  destruct (SavePhots_columns sample.get_files sample.dirname sample.phots_pair sample.tel
              (sample.frame "a.fits" 0 sample.pair_header_a)
              sample.stack_world sample.pair_world "JD")
    as (file & data & col & Hfile & Htable & Hcol & Hall).
  - reflexivity.
  - reflexivity.
  - unfold SavePhots.keywords. simpl. do 9 right. left.
  - by eexists.
  - vm_compute. reflexivity.
  - exists file, data. split; [exact Hfile|]. split; [exact Htable|].
    change (lower "JD") with "jd" in Hcol. rewrite Hcol. f_equal.
    apply Forall2_cons_inv_l in Hall as (v1 & col1 & Hv1 & Hall & ->).
    apply Forall2_cons_inv_l in Hall as (v2 & col2 & Hv2 & Hall & ->).
    apply Forall2_nil_inv_l in Hall as ->.
    injection Hv1 as <-. injection Hv2 as <-. reflexivity.
Defined.

Lemma strip_empty : strip ∅ = ∅.
Proof. apply map_filter_empty. Qed.

Lemma strip_getheader p w :
  (strip <$> getheader p) w
  = match fs w !! p with
    | Some file => (Ok (strip (primary_header file)), w)
    | None => (Raise (FileNotFoundError p), w)
    end.
Proof. unfold fmap, M_fmap, getheader. by destruct (fs w !! p). Qed.

(** X13. [SavePhots.terminate].
    The primary header of the written file is a stripped copy of the
    stack's header with [REDDATE] set to the clock. The stack is the
    registered one when the block holds its path; else it is what the
    search next to the destination answers, when that is the path of one
    file; when the search finds nothing the header holds [REDDATE] alone.
    A stack that is not on disk makes [terminate] raise
    [FileNotFoundError], and a search that answers with a list of files
    makes it fail as well: the list is handed to [fits.getheader] as it
    is. In both cases nothing is written. *)
Theorem SavePhots_primary_header gf dn (self : SavePhots.t) w :
  (∀ w', SavePhots.terminate gf dn self w = (Ok (), w') →
     ∃ file h,
       fs w' !! SavePhots.destination self = Some file ∧
       primary_header file = header_set "REDDATE" (VStr (clock w)) (strip h) ∧
       match SavePhots.stack_path self with
       | Some p => primary_header <$> fs w !! p = Some h
       | None =>
           if decide (0 < SavePhots.len (gf "_stack.fits" (dn (SavePhots.destination self))))
           then ∃ p, gf "_stack.fits" (dn (SavePhots.destination self)) = SavePhots.Path p ∧
                     primary_header <$> fs w !! p = Some h
           else h = ∅
       end) ∧
  (∀ p, SavePhots.stack_path self = Some p ∨
        SavePhots.stack_path self = None ∧
        gf "_stack.fits" (dn (SavePhots.destination self)) = SavePhots.Path p ∧
        p ≠ EmptyString →
        fs w !! p = None →
        SavePhots.terminate gf dn self w = (Raise (FileNotFoundError p), w)) ∧
  (∀ ps, SavePhots.stack_path self = None →
         gf "_stack.fits" (dn (SavePhots.destination self)) = SavePhots.Paths ps →
         ps ≠ [] →
         ∃ e, SavePhots.terminate gf dn self w = (Raise e, w)).
Proof.
  split_and!.
  - intros w' (h & file & Hh & Hfile & _ & ->)%SavePhots_terminate_Ok.
    apply hdu_list_Ok in Hfile as (? & ? & ? & ? & ? & hdus & _ & _ & _ & _ & ->).
    unfold SavePhots.primary_hdu in Hh.
    destruct (SavePhots.stack_path self) as [p|].
    + rewrite strip_getheader in Hh.
      destruct (fs w !! p) as [stack|] eqn:Hp; [|done].
      injection Hh as <-. eexists _, (primary_header stack).
      by split_and!; [apply lookup_insert_eq|..].
    + case_decide as Hlen.
      * destruct (gf "_stack.fits" (dn (SavePhots.destination self))) as [p|ps];
          [|done]. cbn [SavePhots.getheader_found] in Hh.
        rewrite strip_getheader in Hh.
        destruct (fs w !! p) as [stack|] eqn:Hp; [|done].
        injection Hh as <-. eexists _, (primary_header stack).
        split_and!; [apply lookup_insert_eq|done|]. exists p. by rewrite Hp.
      * injection Hh as <-. eexists _, ∅.
        split_and!; [apply lookup_insert_eq| |done]. by rewrite strip_empty.
  - intros p Hp Hnone.
    assert (Hprim : SavePhots.primary_hdu gf dn self w = (Raise (FileNotFoundError p), w)).
    { unfold SavePhots.primary_hdu.
      destruct Hp as [->|(-> & -> & Hne)].
      - by rewrite strip_getheader, Hnone.
      - rewrite decide_True by (destruct p; [done | simpl; lia]).
        cbn [SavePhots.getheader_found]. by rewrite strip_getheader, Hnone. }
    unfold SavePhots.terminate, mbind, M_bind. by rewrite Hprim.
  - intros ps Hnone Hps Hne. eexists.
    unfold SavePhots.terminate, mbind, M_bind, SavePhots.primary_hdu.
    rewrite Hnone, Hps. rewrite decide_True; [reflexivity|].
    destruct ps; [done | simpl; lia].
Qed.

Lemma SavePhots_primary_header_witness :
  ∃ file,
    fs sample.pair_world !! SavePhots.destination sample.phots_pair = Some file ∧
    primary_header sample.stack_file !! "BZERO" = Some (VInt 0) ∧
    primary_header file !! "BZERO" = None ∧
    primary_header file !! "OBJECT" = Some (VStr "star") ∧
    primary_header file !! "REDDATE" = Some (VStr "2020-01-01T00:00:00").
Proof.
  destruct (SavePhots_primary_header sample.get_files sample.dirname sample.phots_pair
              sample.stack_world) as (Hok & _ & _).
  destruct (Hok sample.pair_world) as (file & h & Hfile & Hheader & Hstack).
  - vm_compute. reflexivity.
  - exists file. split; [exact Hfile|]. split; [reflexivity|].
    injection Hstack as <-. rewrite Hheader.
    split; [reflexivity|]. split; reflexivity.
Defined.

(** Without a registered stack, a search that answers with the path of
    the one stack found gives the same file. *)
Example sample_stack_found :
  SavePhots.terminate (λ _ _, SavePhots.Path "stack.fits") sample.dirname
    (SavePhots.mk "out.phots" false (Some sample.tel)
       (SavePhots.images sample.phots_pair) None None)
    sample.stack_world
  = (Ok (), sample.pair_world).
Proof. vm_compute. reflexivity. Qed.

(** A search that finds two stacks answers with their list, and
    [terminate] fails on it and writes nothing. *)
Example sample_two_stacks_found :
  ∃ e, SavePhots.terminate (λ _ _, SavePhots.Paths ["a_stack.fits"; "b_stack.fits"])
         sample.dirname sample.phots sample.empty_world
       = (Raise e, sample.empty_world).
Proof. eexists. reflexivity. Qed.

(** ** [CleanCosmics.run]: the bound it enforces *)

Lemma length_assign {A} (a : list A) mask values :
  length (assign a mask values) = length a.
Proof.
  revert mask values. induction a as [|x a IH]; intros [|m mask] values; try done.
  simpl. destruct m; [destruct values|]; simpl; by rewrite IH.
Qed.

(** [run] on arrays of one shape: the image's array is replaced, in the
    store, by the array of the cleaned pixels. *)
Lemma CleanCosmics_run_Ok (self : CleanCosmics.t) image w d sd std :
  heap w !! data image = Some d →
  CleanCosmics.stack_data self = Some sd →
  CleanCosmics.std_stack self = Some std →
  wf d → wf sd → wf std → shape sd = shape d → shape std = shape d →
  ∃ d',
    CleanCosmics.run self image w
      = (Ok (), mk_world (fs w) (<[data image := d']> (heap w)) (clock w)) ∧
    shape d' = shape d ∧ wf d' ∧
    ∀ r x m s, flat d !! r = Some x → flat sd !! r = Some m → flat std !! r = Some s →
               flat d' !! r = Some (clean_pixel (CleanCosmics.threshold self) x m s).
Proof.
  intros Hd Hsd Hstd Hwd Hwsd Hwstd Hshsd Hshstd.
  set (limit := zip_with Qplus (flat sd)
                  ((λ x, x * CleanCosmics.threshold self)%Q <$> flat std)).
  set (mask := zip_with Qgtb (flat d) limit).
  assert (Hlen_limit : length limit = length (flat d)).
  { unfold limit, wf in *. rewrite length_zip_with, length_fmap.
    rewrite Hwsd, Hwstd, Hwd, Hshsd, Hshstd. lia. }
  assert (Hlen_mask : length mask = length (flat d)).
  { unfold mask. rewrite length_zip_with. lia. }
  exists (mk_ndarray (shape d) (assign (flat d) mask (select (flat sd) mask))).
  split_and!.
  - unfold CleanCosmics.run, mbind, M_bind, lift, load, store.
    rewrite Hd, Hstd, Hsd. cbn [or_raise].
    unfold elementwise, scalar_op. cbn [shape flat].
    rewrite decide_True by congruence. cbn [shape flat].
    rewrite decide_True by congruence.
    unfold getmask, setmask. cbn [shape flat].
    rewrite decide_True by congruence. rewrite decide_True by done.
    fold limit. fold mask. rewrite decide_True; [done|].
    apply length_select. unfold wf in *. rewrite Hlen_mask. congruence.
  - done.
  - unfold wf. cbn [shape flat]. by rewrite length_assign.
  - intros r x m s Hx Hm Hs. cbn [flat].
    assert (Hlim : limit !! r = Some (m + s * CleanCosmics.threshold self)%Q).
    { unfold limit. rewrite lookup_zip_with, Hm. simpl.
      by rewrite list_lookup_fmap, Hs. }
    assert (Hmask : mask !! r = Some (Qgtb x (m + s * CleanCosmics.threshold self)%Q)).
    { unfold mask. rewrite lookup_zip_with, Hx. simpl. by rewrite Hlim. }
    by rewrite (assign_select_lookup _ _ _ _ _ _ _ Hx Hmask Hm).
Qed.

Lemma clean_pixel_le threshold x m s :
  (0 <= s * threshold)%Q → (clean_pixel threshold x m s <= m + s * threshold)%Q.
Proof.
  intros Hs. unfold clean_pixel.
  destruct (Qgtb x (m + s * threshold)) eqn:Hg.
  - rewrite <-(Qplus_0_r m) at 1. by apply Qplus_le_r.
  - apply Qnot_lt_le. intros Hlt%Qgtb_true. congruence.
Qed.

Lemma clean_pixel_idemp threshold x m s :
  clean_pixel threshold (clean_pixel threshold x m s) m s = clean_pixel threshold x m s.
Proof.
  unfold clean_pixel. destruct (Qgtb x (m + s * threshold)) eqn:Hg.
  - by destruct (Qgtb m (m + s * threshold)).
  - by rewrite Hg.
Qed.

(** X14. [CleanCosmics.run].
    A second [run] on the cleaned image changes nothing; and where the
    deviation times the threshold is not negative, [run] leaves no pixel
    above mean + threshold * deviation. *)
Theorem CleanCosmics_run_clips_and_settles (self : CleanCosmics.t) image w d sd std :
  heap w !! data image = Some d →
  CleanCosmics.stack_data self = Some sd →
  CleanCosmics.std_stack self = Some std →
  wf d → wf sd → wf std → shape sd = shape d → shape std = shape d →
  ∃ w' d',
    CleanCosmics.run self image w = (Ok (), w') ∧
    heap w' !! data image = Some d' ∧
    CleanCosmics.run self image w' = (Ok (), w') ∧
    ((∀ s, s ∈ flat std → (0 <= s * CleanCosmics.threshold self)%Q) →
     ∀ idx x m s,
       getitem d' idx = Some x → getitem sd idx = Some m → getitem std idx = Some s →
       (x <= m + s * CleanCosmics.threshold self)%Q).
Proof.
  intros Hd Hsd Hstd Hwd Hwsd Hwstd Hshsd Hshstd.
  destruct (CleanCosmics_run_Ok self image w d sd std)
    as (d' & Hrun & Hsh' & Hwf' & Hpix); [done..|].
  set (w' := mk_world (fs w) (<[data image := d']> (heap w)) (clock w)).
  assert (Hlens : length (flat sd) = length (flat d) ∧ length (flat std) = length (flat d)).
  { unfold wf in *. split; congruence. }
  destruct Hlens as [Hlsd Hlstd].
  assert (Hlen' : length (flat d') = length (flat d)).
  { unfold wf in *. congruence. }
  assert (Hread : ∀ r x', flat d' !! r = Some x' →
            ∃ x m s, flat d !! r = Some x ∧ flat sd !! r = Some m ∧
                     flat std !! r = Some s ∧
                     x' = clean_pixel (CleanCosmics.threshold self) x m s).
  { intros r x' Hx'. pose proof (lookup_lt_Some _ _ _ Hx') as Hr.
    destruct (lookup_lt_is_Some_2 (flat d) r) as [x Hx]; [lia|].
    destruct (lookup_lt_is_Some_2 (flat sd) r) as [m Hm]; [lia|].
    destruct (lookup_lt_is_Some_2 (flat std) r) as [s Hs]; [lia|].
    exists x, m, s. split_and!; [done..|].
    rewrite (Hpix r x m s Hx Hm Hs) in Hx'. by injection Hx'. }
  exists w', d'. split_and!; [done | apply lookup_insert_eq | |].
  - destruct (CleanCosmics_run_Ok self image w' d' sd std)
      as (d'' & Hrun2 & Hsh'' & Hwf'' & Hpix2);
      [apply lookup_insert_eq | done.. | congruence | congruence |].
    rewrite Hrun2. subst w'. cbn [fs heap clock]. rewrite insert_insert_eq.
    replace d'' with d'; [done|].
    destruct d' as [sh' fl'], d'' as [sh'' fl'']. cbn [shape flat] in *.
    f_equal; [congruence|]. apply list_eq. intros r.
    destruct (fl' !! r) as [x'|] eqn:Hx'.
    + destruct (Hread r x' Hx') as (x & m & s & Hx & Hm & Hs & ->).
      rewrite (Hpix2 r _ m s Hx' Hm Hs). f_equal.
      symmetry. apply clean_pixel_idemp.
    + symmetry. apply lookup_ge_None. apply lookup_ge_None in Hx'.
      unfold wf in *. cbn [shape flat] in *. congruence.
  - intros Hpos idx x' m s. unfold getitem. rewrite Hsh', Hshsd, Hshstd.
    destruct (ravel (shape d) idx) as [r|]; [|done]. simpl. intros Hx' Hm Hs.
    destruct (Hread r x' Hx') as (x & m' & s' & Hx & Hm' & Hs' & ->).
    rewrite Hm in Hm'. rewrite Hs in Hs'. injection Hm' as <-. injection Hs' as <-.
    apply clean_pixel_le, Hpos. by eapply list_elem_of_lookup_2.
Qed.

Lemma CleanCosmics_run_clips_and_settles_witness :
  ∃ w' d',
    CleanCosmics.run sample.cosmics sample.image_spike sample.cosmics_world = (Ok (), w') ∧
    heap w' !! data sample.image_spike = Some d' ∧
    CleanCosmics.run sample.cosmics sample.image_spike w' = (Ok (), w') ∧
    ((∀ s, s ∈ flat sample.plane_ones →
           (0 <= s * CleanCosmics.threshold sample.cosmics)%Q) →
     ∀ idx x m s,
       getitem d' idx = Some x → getitem sample.plane_a idx = Some m →
       getitem sample.plane_ones idx = Some s →
       (x <= m + s * CleanCosmics.threshold sample.cosmics)%Q).
Proof.
  apply (CleanCosmics_run_clips_and_settles sample.cosmics sample.image_spike
           sample.cosmics_world sample.plane_spike sample.plane_a sample.plane_ones).
  - reflexivity.
  - reflexivity.
  - reflexivity.
  - reflexivity.
  - reflexivity.
  - reflexivity.
  - reflexivity.
  - reflexivity.
Defined.

(** ** [StackStd]: the buffer of references *)

Lemma keeps_heap_ret {A} (a : A) : keeps_heap (mret a : M A).
Proof. by intros w r w' [= _ <-]. Qed.

Lemma keeps_heap_lift {A} (x : result A) : keeps_heap (lift x).
Proof. by intros w r w' [= _ <-]. Qed.

Lemma keeps_heap_load l : keeps_heap (load l).
Proof. by intros w r w' [= _ <-]. Qed.

Lemma keeps_heap_writeto file dest ow : keeps_heap (writeto file dest ow).
Proof.
  intros w r w'. unfold writeto.
  destruct (fs w !! dest), ow; by intros [= _ <-].
Qed.

Lemma keeps_heap_bind {A B} (m : M A) (f : A → M B) :
  keeps_heap m → (∀ a, keeps_heap (f a)) → keeps_heap (m ≫= f).
Proof.
  intros Hm Hf w r w'. unfold mbind, M_bind.
  destruct (m w) as [[a|e] w1] eqn:Hmw.
  - intros Hfa. rewrite (Hf a _ _ _ Hfa). by eapply Hm.
  - intros [= _ <-]. by eapply Hm.
Qed.

Lemma keeps_heap_mapM_load ls : keeps_heap (mapM load ls).
Proof.
  induction ls as [|l ls IH]; [apply keeps_heap_ret|].
  apply keeps_heap_bind; [apply keeps_heap_load|]. intros a.
  apply keeps_heap_bind; [apply IH|]. intros k. apply keeps_heap_ret.
Qed.


(** X15. [StackStd.terminate].
    [StackStd] never changes an array: whether [terminate] succeeds or
    fails, the store is as before. What it writes has [IMTYPE] set to
    "std" over a stripped copy of the registered stack's header, if any:
    the scaling cards [BZERO] and [BSCALE] are not in the file, and every
    other card that is no keyword of the layout is the stack header's. *)
Theorem StackStd_terminate_keeps_store sqrt (self : StackStd.t) w r w' :
  StackStd.terminate sqrt self w = (r, w') →
  heap w' = heap w ∧
  (r = Ok () →
   ∃ std h,
     fs w' !! StackStd.destination self = Some (mk_HDUList h (Some std) []) ∧
     h !! "IMTYPE" = Some (VStr "std") ∧
     h !! "BZERO" = None ∧ h !! "BSCALE" = None ∧
     ∀ k, k ≠ "IMTYPE" → layout_keyword k = false →
          h !! k = default ∅ (StackStd.stack_header self) !! k).
Proof.
  intros Hterm. split.
  - revert Hterm. apply (keeps_heap_bind (mapM load (StackStd.images self))).
    + apply keeps_heap_mapM_load.
    + intros planes. apply keeps_heap_bind; [apply keeps_heap_lift|].
      intros arr. apply keeps_heap_writeto.
  - intros ->. unfold StackStd.terminate in Hterm.
    apply M_bind_Ok in Hterm as (planes & w1 & Hload & Hterm).
    apply M_bind_Ok in Hterm as (arr & w2 & _ & Hterm).
    apply writeto_Ok in Hterm as [_ ->].
    eexists _, _. split_and!.
    + apply lookup_insert_eq.
    + apply (lookup_header_set_eq "IMTYPE").
    + rewrite lookup_header_set_ne by done. apply lookup_strip_fixed. compute_done.
    + rewrite lookup_header_set_ne by done. apply lookup_strip_fixed. compute_done.
    + intros k Hk Hlayout. rewrite lookup_header_set_ne by done.
      by apply lookup_strip_other.
Qed.

Lemma StackStd_terminate_keeps_store_witness :
  heap (StackStd.terminate (λ x, x) sample.std_block sample.dataset_world).2
  = heap sample.dataset_world ∧
  ∃ std h,
    fs (StackStd.terminate (λ x, x) sample.std_block sample.dataset_world).2 !! "std.fits"
    = Some (mk_HDUList h (Some std) []) ∧
    h !! "IMTYPE" = Some (VStr "std") ∧
    h !! "BZERO" = None ∧ h !! "BSCALE" = None ∧
    h !! "OBJECT" = Some (VStr "star").
Proof.
  destruct (StackStd_terminate_keeps_store (λ x, x) sample.std_block sample.dataset_world
              (Ok ()) (StackStd.terminate (λ x, x) sample.std_block sample.dataset_world).2)
    as [Hheap Hfile].
  - vm_compute. reflexivity.
  - split; [exact Hheap|].
    destruct (Hfile eq_refl) as (std & h & Hdest & Himtype & Hbzero & Hbscale & Hother).
    exists std, h. split; [exact Hdest|]. split; [exact Himtype|].
    split; [exact Hbzero|]. split; [exact Hbscale|].
    rewrite Hother; [reflexivity | discriminate | reflexivity].
Defined.



(** ** [SaveReduced]: the name of the reduced file *)

Lemma rfind_app_sep c (a b : string) :
  rfind c b = None → rfind c (a +:+ String c b) = Some (String.length a).
Proof.
  intros Hb. induction a as [|x a IH]; simpl.
  - rewrite Hb. by rewrite decide_True.
  - by rewrite IH.
Qed.

Lemma rfind_app_None c (a b : string) :
  rfind c a = None → rfind c b = None → rfind c (a +:+ b) = None.
Proof.
  intros Ha Hb. induction a as [|x a IH]; simpl in *; [done|].
  destruct (rfind c a) as [i|]; [done|]. rewrite IH by done.
  by destruct (decide (x = c)).
Qed.

Lemma string_drop_app (a b : string) : string_drop (String.length a) (a +:+ b) = b.
Proof.
  induction a as [|x a IH]; simpl; [|done]. by destruct b.
Qed.

Lemma string_take_app (a b : string) : string_take (String.length a) (a +:+ b) = a.
Proof.
  induction a as [|x a IH]; simpl; [by destruct b|]. by rewrite IH.
Qed.

(** The file name of a path in a folder is what follows the folder. *)
Lemma basename_in_folder dir name :
  rfind "/" name = None → basename (dir +:+ "/" +:+ name) = name.
Proof.
  intros Hname. unfold basename.
  change ("/" +:+ name) with (String "/" name).
  rewrite rfind_app_sep by done.
  change (string_drop (S (String.length dir)) (dir +:+ String "/" name))
    with (string_drop (String.length (dir +:+ "/")) (dir +:+ String "/" name)) || idtac.
  induction dir as [|x dir IH]; simpl; [done|]. exact IH.
Qed.

Lemma get_Some_lt (s : string) j c : String.get j s = Some c → j < String.length s.
Proof.
  revert j. induction s as [|x s IH]; intros [|j]; simpl; try done; [lia|].
  intros H. apply IH in H. lia.
Qed.

(** A name [stem.ext] whose stem holds a character other than a dot is
    cut at its last dot. *)
Lemma splitext_stem stem ext :
  rfind "/" stem = None → rfind "/" ext = None → rfind "." ext = None →
  (∃ j c, String.get j stem = Some c ∧ c ≠ "."%char) →
  splitext (stem +:+ "." +:+ ext) = (stem, "." +:+ ext).
Proof.
  intros Hs He Hd (j & c & Hj & Hc). unfold splitext.
  change ("." +:+ ext) with (String "." ext).
  rewrite rfind_app_sep by done.
  rewrite rfind_app_None; [|done|simpl; by rewrite He].
  rewrite Nat.sub_0_r. rewrite bool_decide_true by lia. cbn [andb].
  replace (existsb _ _) with true.
  - by rewrite string_take_app, string_drop_app.
  - symmetry. apply existsb_exists. exists j. split.
    + apply in_seq. split; [lia|]. simpl. by eapply get_Some_lt.
    + rewrite <-String.append_correct1 by (by eapply get_Some_lt).
      rewrite Hj. apply negb_true_iff, bool_decide_eq_false. by intros [= ->].
Qed.

(** ** [SaveReduced.run] *)

Lemma SaveReduced_run_eq self image tel d w :
  SaveReduced.telescope self = Some tel →
  heap w !! data image = Some d →
  SaveReduced.run self image w =
    match writeto (mk_HDUList (reduced_header tel (clock w) (header image)) (Some d) [])
            (SaveReduced.fits_new_path (SaveReduced.destination self) (path image))
            (SaveReduced.overwrite self) w with
    | (Ok _, w') => (Ok (with_header image (reduced_header tel (clock w) (header image))), w')
    | (Raise e, w') => (Raise e, w')
    end.
Proof.
  intros Htel Hd. unfold SaveReduced.run, mbind, M_bind, load, lift, now.
  rewrite Hd, Htel. cbn [or_raise]. simpl.
  by destruct (writeto _ _ _ w) as [[[]|e] w'].
Qed.

Lemma fits_new_path_folder dest dir name :
  rfind "/" name = None →
  SaveReduced.fits_new_path dest (dir +:+ "/" +:+ name) = SaveReduced.fits_new_path dest name.
Proof.
  intros Hname. unfold SaveReduced.fits_new_path.
  rewrite basename_in_folder by done.
  unfold basename. by rewrite Hname.
Qed.

(** X17. [SaveReduced]: the reduced file is named after the file name of the
    image alone. For an image [dir/stem.ext], where the stem holds a
    character other than a dot and the extension holds no dot, the file is
    [stem_reduced.fits] in the destination folder, whatever [dir] and
    [ext] are. *)
Theorem SaveReduced_file_name dest dir stem ext :
  rfind "/" stem = None → rfind "/" ext = None → rfind "." ext = None →
  (∃ j c, String.get j stem = Some c ∧ c ≠ "."%char) →
  SaveReduced.fits_new_path dest (dir +:+ "/" +:+ stem +:+ "." +:+ ext)
    = path_join dest (stem +:+ "_reduced.fits") ∧
  SaveReduced.fits_new_path dest (stem +:+ "." +:+ ext)
    = path_join dest (stem +:+ "_reduced.fits").
Proof.
  intros Hs He Hd Hc.
  assert (Hname : rfind "/" (stem +:+ "." +:+ ext) = None).
  { apply rfind_app_None; [done|]. change ("." +:+ ext) with (String "." ext).
    simpl. by rewrite He. }
  rewrite fits_new_path_folder by done.
  assert (SaveReduced.fits_new_path dest (stem +:+ "." +:+ ext)
          = path_join dest (stem +:+ "_reduced.fits")); [|done].
  unfold SaveReduced.fits_new_path, basename. rewrite Hname.
  by rewrite splitext_stem.
Qed.

Lemma SaveReduced_file_name_witness :
  SaveReduced.fits_new_path "out" ("night1" +:+ "/" +:+ "obj.v2" +:+ "." +:+ "fits")
    = path_join "out" ("obj.v2" +:+ "_reduced.fits") ∧
  SaveReduced.fits_new_path "out" ("obj.v2" +:+ "." +:+ "fits")
    = path_join "out" ("obj.v2" +:+ "_reduced.fits").
Proof.
  apply (SaveReduced_file_name "out" "night1" "obj.v2" "fits").
  - reflexivity.
  - reflexivity.
  - reflexivity.
  - exists 0, "o"%char. split; [reflexivity | discriminate].
Defined.

(** X18. [SaveReduced.run], on a block that was initialized, with the
    destination free or [overwrite] set: the file is written with the
    array of the image and with the header the image is left with; no
    array of the store changes. That header holds the image type
    ["reduced"], the reduction date, [BZERO] = 0 and, under [SEEING], the
    card of the telescope's seeing keyword (the empty string when the
    image has none); every other card is kept. The image type is written
    last: it wins when the telescope's keyword is one of the other three. *)
Theorem SaveReduced_run_saves self image tel d w :
  SaveReduced.telescope self = Some tel →
  heap w !! data image = Some d →
  SaveReduced.overwrite self = true ∨
    fs w !! SaveReduced.fits_new_path (SaveReduced.destination self) (path image) = None →
  ∃ image' w',
    SaveReduced.run self image w = (Ok image', w') ∧
    fs w' = <[SaveReduced.fits_new_path (SaveReduced.destination self) (path image)
                := mk_HDUList (header image') (Some d) []]> (fs w) ∧
    heap w' = heap w ∧
    path image' = path image ∧ data image' = data image ∧
    header_get (header image') (keyword_image_type tel) = Some (VStr "reduced") ∧
    (normalize_keyword (keyword_image_type tel) ≠ "REDDATE" →
     header image' !! "REDDATE" = Some (VStr (clock w))) ∧
    (normalize_keyword (keyword_image_type tel) ≠ "BZERO" →
     header image' !! "BZERO" = Some (VInt 0)) ∧
    (normalize_keyword (keyword_image_type tel) ≠ "SEEING" →
     header image' !! "SEEING"
       = Some (default (VStr EmptyString) (header_get (header image) (keyword_seeing tel)))) ∧
    (∀ k, k ∉ ["SEEING"; "BZERO"; "REDDATE"; normalize_keyword (keyword_image_type tel)] →
          header image' !! k = header image !! k).
Proof.
  intros Htel Hd Hfree.
  rewrite (SaveReduced_run_eq _ _ _ _ _ Htel Hd).
  destruct (writeto _ _ _ w) as [r w'] eqn:Hw.
  assert (Hok : writeto (mk_HDUList (reduced_header tel (clock w) (header image)) (Some d) [])
                  (SaveReduced.fits_new_path (SaveReduced.destination self) (path image))
                  (SaveReduced.overwrite self) w
                = (Ok (), mk_world
                     (<[SaveReduced.fits_new_path (SaveReduced.destination self) (path image)
                          := mk_HDUList (reduced_header tel (clock w) (header image))
                               (Some d) []]> (fs w))
                     (heap w) (clock w))).
  { apply writeto_Ok. split; [tauto | done]. }
  rewrite Hok in Hw. injection Hw as <- <-.
  eexists _, _. split; [done|]. cbn [fs heap with_header header path data].
  unfold reduced_header.
  repeat split.
  - apply header_get_set_eq.
  - intros Hne. rewrite lookup_header_set_ne by done.
    apply (lookup_header_set_eq "REDDATE").
  - intros Hne. rewrite lookup_header_set_ne by done.
    rewrite (lookup_header_set_ne "REDDATE") by done.
    apply (lookup_header_set_eq "BZERO").
  - intros Hne. rewrite lookup_header_set_ne by done.
    rewrite (lookup_header_set_ne "REDDATE") by done.
    rewrite (lookup_header_set_ne "BZERO") by done.
    apply (lookup_header_set_eq "SEEING").
  - intros k Hk. rewrite !not_elem_of_cons in Hk. destruct Hk as (? & ? & ? & ? & _).
    rewrite lookup_header_set_ne by done.
    rewrite (lookup_header_set_ne "REDDATE") by done.
    rewrite (lookup_header_set_ne "BZERO") by done.
    by rewrite (lookup_header_set_ne "SEEING").
Qed.

Lemma SaveReduced_run_saves_witness :
  ∃ image' w',
    SaveReduced.run (sample.saver false) sample.night1 sample.dataset_world = (Ok image', w') ∧
    fs w' = <[SaveReduced.fits_new_path (SaveReduced.destination (sample.saver false))
                (path sample.night1)
                := mk_HDUList (header image') (Some sample.plane_a) []]>
              (fs sample.dataset_world) ∧
    heap w' = heap sample.dataset_world ∧
    path image' = path sample.night1 ∧ data image' = data sample.night1 ∧
    header_get (header image') (keyword_image_type sample.tel_fwhm) = Some (VStr "reduced") ∧
    (normalize_keyword (keyword_image_type sample.tel_fwhm) ≠ "REDDATE" →
     header image' !! "REDDATE" = Some (VStr (clock sample.dataset_world))) ∧
    (normalize_keyword (keyword_image_type sample.tel_fwhm) ≠ "BZERO" →
     header image' !! "BZERO" = Some (VInt 0)) ∧
    (normalize_keyword (keyword_image_type sample.tel_fwhm) ≠ "SEEING" →
     header image' !! "SEEING"
       = Some (default (VStr EmptyString)
                 (header_get (header sample.night1) (keyword_seeing sample.tel_fwhm)))) ∧
    (∀ k, k ∉ ["SEEING"; "BZERO"; "REDDATE";
               normalize_keyword (keyword_image_type sample.tel_fwhm)] →
          header image' !! k = header sample.night1 !! k).
Proof.
  apply (SaveReduced_run_saves (sample.saver false) sample.night1 sample.tel_fwhm
           sample.plane_a sample.dataset_world).
  - reflexivity.
  - reflexivity.
  - right. reflexivity.
Defined.

(** X19. [SaveReduced.run] on an image whose array is in the store fails in two
    ways only: with [AttributeError] on a block that was not initialized,
    and with the [OSError] of the write when the reduced file exists and
    [overwrite] is off. In both cases no file and no array has changed. *)
Theorem SaveReduced_run_failure self image w e w' :
  is_Some (heap w !! data image) →
  SaveReduced.run self image w = (Raise e, w') →
  w' = w ∧
  (e = AttributeError ∧ SaveReduced.telescope self = None ∨
   e = OSError (SaveReduced.fits_new_path (SaveReduced.destination self) (path image)) ∧
   SaveReduced.overwrite self = false ∧
   is_Some (fs w !! SaveReduced.fits_new_path (SaveReduced.destination self) (path image))).
Proof.
  intros [d Hd]. destruct (SaveReduced.telescope self) as [tel|] eqn:Htel.
  - rewrite (SaveReduced_run_eq _ _ _ _ _ Htel Hd). unfold writeto.
    destruct (fs w !! _) as [old|] eqn:Hold; [|done].
    destruct (SaveReduced.overwrite self); [done|].
    intros [= <- <-]. split; [done|]. right. eauto.
  - unfold SaveReduced.run, mbind, M_bind, load, lift. rewrite Hd, Htel. simpl.
    intros [= <- <-]. auto.
Qed.

Lemma SaveReduced_run_failure_witness :
  sample.reduced_world = sample.reduced_world ∧
  (OSError "out/obj_reduced.fits" = AttributeError ∧
     SaveReduced.telescope (sample.saver false) = None ∨
   OSError "out/obj_reduced.fits"
     = OSError (SaveReduced.fits_new_path (SaveReduced.destination (sample.saver false))
                  (path sample.night2)) ∧
   SaveReduced.overwrite (sample.saver false) = false ∧
   is_Some (fs sample.reduced_world
              !! SaveReduced.fits_new_path (SaveReduced.destination (sample.saver false))
                   (path sample.night2))).
Proof.
  apply (SaveReduced_run_failure (sample.saver false) sample.night2 sample.reduced_world).
  - by eexists.
  - reflexivity.
Defined.

(** X20. [SaveReduced]: two images of one file name in two folders are saved
    under one name. With the destination free before the first, the first
    [run] writes its file; the second replaces it with its own array and
    header when [overwrite] is set, and otherwise fails with [OSError] and
    leaves the first file. *)
Theorem SaveReduced_same_file_name self tel a b da db dira dirb name w :
  SaveReduced.telescope self = Some tel →
  heap w !! data a = Some da → heap w !! data b = Some db →
  rfind "/" name = None →
  path a = dira +:+ "/" +:+ name → path b = dirb +:+ "/" +:+ name →
  fs w !! SaveReduced.fits_new_path (SaveReduced.destination self) name = None →
  ∃ a' w1 r w2,
    SaveReduced.run self a w = (Ok a', w1) ∧
    SaveReduced.run self b w1 = (r, w2) ∧
    fs w1 = <[SaveReduced.fits_new_path (SaveReduced.destination self) name
                := mk_HDUList (header a') (Some da) []]> (fs w) ∧
    if SaveReduced.overwrite self
    then ∃ b', r = Ok b' ∧
               fs w2 = <[SaveReduced.fits_new_path (SaveReduced.destination self) name
                           := mk_HDUList (header b') (Some db) []]> (fs w)
    else r = Raise (OSError (SaveReduced.fits_new_path (SaveReduced.destination self) name)) ∧
         w2 = w1.
Proof.
  intros Htel Ha Hb Hname Hpa Hpb Hfree.
  rewrite !(SaveReduced_run_eq _ _ tel da) by done.
  rewrite Hpa, fits_new_path_folder by done.
  unfold writeto at 1. rewrite Hfree.
  destruct (SaveReduced.overwrite self) eqn:Hov.
  all: eexists _, _, _, _; (split; [done|]).
  all: rewrite (SaveReduced_run_eq _ _ tel db) by done.
  all: rewrite Hpb, fits_new_path_folder by done.
  all: unfold writeto; cbn [fs heap clock]; rewrite lookup_insert_eq, Hov.
  - split; [done|]. split; [done|]. eexists. split; [done|].
    cbn [fs]. by rewrite insert_insert_eq.
  - split; [done|]. split; [done|]. done.
Qed.

Lemma SaveReduced_same_file_name_witness :
  ∃ a' w1 r w2,
    SaveReduced.run (sample.saver true) sample.night1 sample.dataset_world = (Ok a', w1) ∧
    SaveReduced.run (sample.saver true) sample.night2 w1 = (r, w2) ∧
    fs w1 = <[SaveReduced.fits_new_path (SaveReduced.destination (sample.saver true))
                "obj.fits" := mk_HDUList (header a') (Some sample.plane_a) []]>
              (fs sample.dataset_world) ∧
    if SaveReduced.overwrite (sample.saver true)
    then ∃ b', r = Ok b' ∧
               fs w2 = <[SaveReduced.fits_new_path
                           (SaveReduced.destination (sample.saver true)) "obj.fits"
                           := mk_HDUList (header b') (Some sample.plane_b) []]>
                         (fs sample.dataset_world)
    else r = Raise (OSError (SaveReduced.fits_new_path
                               (SaveReduced.destination (sample.saver true)) "obj.fits")) ∧
         w2 = w1.
Proof.
  apply (SaveReduced_same_file_name (sample.saver true) sample.tel_fwhm
           sample.night1 sample.night2 sample.plane_a sample.plane_b
           "night1" "night2" "obj.fits" sample.dataset_world).
  - reflexivity.
  - reflexivity.
  - reflexivity.
  - reflexivity.
  - reflexivity.
  - reflexivity.
  - reflexivity.
Defined.

(** ** [NEBCheck.plot_neb_lcs]: the pages and their files *)

Lemma chunks_concat {A} (s m : nat) (l : list A) :
  length l ≤ m * s →
  concat ((λ k, take s (drop (k * s) l)) <$> seq 0 m) = l.
Proof.
  revert l. induction m as [|m IH]; intros l Hl.
  - destruct l; [done | simpl in Hl; lia].
  - cbn [seq fmap list_fmap concat]. rewrite <-fmap_S_seq, <-list_fmap_compose.
    transitivity (take s l ++ drop s l); [|apply take_drop].
    f_equal.
    rewrite <-(IH (drop s l)) at 1 by (rewrite length_drop; lia).
    f_equal. apply list_fmap_ext. intros _ k _. simpl.
    by rewrite drop_drop.
Qed.

Lemma range_groups (indexes : list nat) :
  (λ i, take 36 (drop i indexes)) <$> NEBCheck.range 24 (length indexes) 36
  = (λ k, take 36 (drop (k * 36) (drop 24 indexes)))
      <$> seq 0 ((length indexes - 24 + 35) / 36).
Proof.
  unfold NEBCheck.range. rewrite <-list_fmap_compose.
  apply list_fmap_ext. intros _ k _. simpl. by rewrite drop_drop.
Qed.

Lemma rows_Ok groups later : NEBCheck.rows groups = Ok later → later = groups.
Proof.
  unfold NEBCheck.rows. destruct groups as [|g groups]; [by intros [= <-]|].
  destruct (decide _); [by intros [= <-] | done].
Qed.

(** X21. [NEBCheck.plot_neb_lcs].
    [plot_neb_lcs] shows every index once and in order. With at most 24
    indexes the loop runs over the indexes themselves: one page, and so
    one file, for each index. With more, a result of [split] is a first
    page of 24 indexes followed by pages of 1 to 36 indexes that together
    hold the remaining indexes. *)
Theorem NEBCheck_split_covers (indexes : list nat) (pages : list NEBCheck.page) :
  NEBCheck.split indexes = Ok pages →
  concat (page_indexes <$> pages) = indexes ∧
  (length indexes ≤ 24 → pages = NEBCheck.Index <$> indexes) ∧
  (24 < length indexes →
   ∃ later, pages = NEBCheck.Indexes (take 24 indexes) :: (NEBCheck.Indexes <$> later) ∧
            concat later = drop 24 indexes ∧
            length later = (length indexes - 24 + 35) / 36 ∧
            Forall (λ g, 0 < length g ≤ 36) later).
Proof.
  unfold NEBCheck.split. destruct (decide (24 < length indexes)) as [Hlong|Hshort].
  - intros Hsplit. apply bind_Ok in Hsplit as (later & Hrows%rows_Ok & [= <-]).
    rewrite range_groups in Hrows.
    pose proof (Nat.div_mod_eq (length indexes - 24 + 35) 36) as Hdiv.
    pose proof (Nat.mod_upper_bound (length indexes - 24 + 35) 36) as Hmod.
    assert (Hcat : concat later = drop 24 indexes).
    { subst later. apply chunks_concat. rewrite length_drop. lia. }
    split; [|split; [lia|]].
    + cbn [fmap list_fmap concat page_indexes]. rewrite <-list_fmap_compose.
      replace (page_indexes ∘ NEBCheck.Indexes) with (@id (list nat)) by done.
      rewrite list_fmap_id, Hcat. apply take_drop.
    + intros _. exists later. split; [done|]. split; [done|]. split.
      * subst later. by rewrite length_fmap, length_seq.
      * subst later. apply Forall_fmap, Forall_forall. intros k Hk%elem_of_seq.
        simpl. rewrite length_take, length_drop, length_drop. lia.
  - intros [= <-]. split; [|split; [done | lia]].
    rewrite <-list_fmap_compose. clear Hshort.
    induction indexes as [|i indexes IH]; [done|]. simpl. by f_equal.
Qed.

Lemma NEBCheck_split_covers_witness :
  concat (page_indexes <$> [NEBCheck.Indexes (seq 0 24); NEBCheck.Indexes (seq 24 36)])
    = seq 0 60 ∧
  (length (seq 0 60) ≤ 24 →
   [NEBCheck.Indexes (seq 0 24); NEBCheck.Indexes (seq 24 36)]
     = NEBCheck.Index <$> seq 0 60) ∧
  (24 < length (seq 0 60) →
   ∃ later, [NEBCheck.Indexes (seq 0 24); NEBCheck.Indexes (seq 24 36)]
              = NEBCheck.Indexes (take 24 (seq 0 60)) :: (NEBCheck.Indexes <$> later) ∧
            concat later = drop 24 (seq 0 60) ∧
            length later = (length (seq 0 60) - 24 + 35) / 36 ∧
            Forall (λ g, 0 < length g ≤ 36) later).
Proof.
  apply (NEBCheck_split_covers (seq 0 60)). vm_compute. reflexivity.
Defined.

Lemma string_app_length (s t : string) :
  String.length (s +:+ t) = String.length s + String.length t.
Proof. induction s as [|c s IH]; simpl; [done | by rewrite IH]. Qed.

Lemma string_app_inj_r (s1 s2 t : string) : s1 +:+ t = s2 +:+ t → s1 = s2.
Proof.
  revert s2. induction s1 as [|c s1 IH]; intros [|c' s2] H.
  - done.
  - apply (f_equal String.length) in H.
    rewrite !string_app_length in H. simpl in H. lia.
  - apply (f_equal String.length) in H.
    rewrite !string_app_length in H. simpl in H. lia.
  - simpl in H. injection H as -> H. f_equal. by apply IH.
Qed.

Lemma string_app_assoc (s t u : string) : (s +:+ t) +:+ u = s +:+ t +:+ u.
Proof.
  induction s as [|c s IH]; [done|].
  change (String c ((s +:+ t) +:+ u) = String c (s +:+ t +:+ u)). by rewrite IH.
Qed.

Lemma path_join_relative a c :
  c ≠ "/"%char → ∃ prefix, ∀ b', path_join a (String c b') = prefix +:+ String c b'.
Proof.
  intros Hc.
  assert (Hj : ∀ b', path_join a (String c b')
                     = if decide (a = EmptyString) then String c b'
                       else if ends_with_slash a then a +:+ String c b'
                       else a +:+ "/" +:+ String c b').
  { intros b'. unfold path_join.
    destruct c as [[] [] [] [] [] [] [] []]; try done. }
  destruct (decide (a = EmptyString)).
  - exists EmptyString. intros b'. by rewrite Hj.
  - destruct (ends_with_slash a).
    + exists a. intros b'. by rewrite Hj.
    + exists (a +:+ "/"). intros b'. rewrite Hj.
      by rewrite string_app_assoc.
Qed.

(** X22. [NEBCheck.plot_neb_lcs].
    [plot_neb_lcs] saves one file for each page: [lcs0.png], [lcs1.png],
    ... in the folder of the disposition, page [i] in [lcs<i>.png], and no
    two pages in one file. *)
Theorem NEBCheck_lcs_one_file_per_page destination disposition (pages : list NEBCheck.page) :
  length (NEBCheck.lcs destination disposition pages) = length pages ∧
  NoDup (NEBCheck.lcs destination disposition pages) ∧
  ∀ i, i < length pages →
       NEBCheck.lcs destination disposition pages !! i
       = Some (path_join (path_join destination disposition)
                 ("lcs" +:+ pretty i +:+ ".png")).
Proof.
  unfold NEBCheck.lcs. split; [apply length_imap|]. split.
  - rewrite (imap_seq_0 pages (λ i, path_join (path_join destination disposition)
                                      ("lcs" +:+ pretty i +:+ ".png"))).
    apply NoDup_fmap_2_strong; [|apply NoDup_seq].
    intros i j _ _ Heq.
    destruct (path_join_relative (path_join destination disposition) "l")
      as [prefix Hprefix]; [done|].
    change ("lcs" +:+ pretty i +:+ ".png") with (String "l" ("cs" +:+ pretty i +:+ ".png")) in Heq.
    change ("lcs" +:+ pretty j +:+ ".png") with (String "l" ("cs" +:+ pretty j +:+ ".png")) in Heq.
    rewrite !Hprefix in Heq.
    apply (inj (String.app prefix)) in Heq.
    injection Heq as Heq. change (pretty i +:+ ".png" = pretty j +:+ ".png") in Heq.
    apply string_app_inj_r in Heq.
    by apply (inj pretty) in Heq.
  - intros i Hi. rewrite list_lookup_imap.
    destruct (lookup_lt_is_Some_2 pages i Hi) as [p ->]. done.
Qed.

Lemma NEBCheck_lcs_one_file_per_page_witness :
  length (NEBCheck.lcs "report" "all" [NEBCheck.Index 4; NEBCheck.Index 7]) = 2 ∧
  NEBCheck.lcs "report" "all" [NEBCheck.Index 4; NEBCheck.Index 7] !! 1
    = Some "report/all/lcs1.png".
Proof.
  destruct (NEBCheck_lcs_one_file_per_page "report" "all"
              [NEBCheck.Index 4; NEBCheck.Index 7]) as (Hlen & _ & Hfile).
  split; [exact Hlen|]. rewrite (Hfile 1); [reflexivity | simpl; lia].
Defined.

(** ** [Stack.terminate]: what a failure leaves behind *)

(** X23. [Stack.terminate] on a block that received no image fails before it
    touches anything: with [AttributeError] when the block was not
    initialized either, with [TypeError] otherwise. No file is written and
    no array changes. *)
Theorem Stack_terminate_without_run (self : Stack.t) w :
  Stack.stack self = None →
  Stack.terminate self w
  = (Raise (match Stack.fits_manager self with
            | Some _ => TypeError
            | None => AttributeError
            end), w).
Proof.
  intros Hstack. unfold Stack.terminate, mbind, M_bind, lift.
  rewrite Hstack. by destruct (Stack.fits_manager self).
Qed.

Lemma Stack_terminate_without_run_witness :
  Stack.terminate sample.stack_block sample.dataset_world
  = (Raise (match Stack.fits_manager sample.stack_block with
            | Some _ => TypeError
            | None => AttributeError
            end), sample.dataset_world).
Proof.
  apply (Stack_terminate_without_run sample.stack_block sample.dataset_world).
  reflexivity.
Defined.

(** X24. [Stack.terminate] divides the accumulator in place before it writes.
    When the write is refused (the destination exists and [overwrite] is
    off) the files are as before, but the accumulator's array, which is the
    first image's own array, stays divided by the number of files. *)
Theorem Stack_terminate_refused_after_division (self : Stack.t) fm l acc h0 w :
  Stack.fits_manager self = Some fm → Stack.stack self = Some l →
  heap w !! l = Some acc → Stack.stack_header self = Some h0 →
  Stack.overwrite self = false → is_Some (fs w !! Stack.destination self) →
  ∃ w', Stack.terminate self w = (Raise (OSError (Stack.destination self)), w') ∧
        fs w' = fs w ∧
        heap w' !! l = Some (divided fm acc) ∧
        ∀ l', l' ≠ l → heap w' !! l' = heap w !! l'.
Proof.
  intros Hfm Hl Hacc Hh Hov Hex.
  rewrite (Stack_terminate_eq _ _ _ _ _ _ Hfm Hl Hacc Hh), Hov.
  rewrite writeto_conflict by done.
  eexists. split; [done|]. cbn [fs heap]. split; [done|]. split.
  - apply lookup_insert_eq.
  - intros l' Hne. by rewrite lookup_insert_ne.
Qed.

Lemma Stack_terminate_refused_after_division_witness :
  ∃ w', Stack.terminate sample.stack_block_run sample.dataset_world_taken
        = (Raise (OSError (Stack.destination sample.stack_block_run)), w') ∧
        fs w' = fs sample.dataset_world_taken ∧
        heap w' !! 0 = Some (divided sample.fm sample.plane_sum) ∧
        ∀ l', l' ≠ 0 → heap w' !! l' = heap sample.dataset_world_taken !! l'.
Proof.
  apply (Stack_terminate_refused_after_division sample.stack_block_run sample.fm 0
           sample.plane_sum sample.wcs_b sample.dataset_world_taken).
  - reflexivity.
  - reflexivity.
  - reflexivity.
  - reflexivity.
  - reflexivity.
  - by eexists.
Defined.
